(** * create-icon.py: the LCARS icon pixel function and its PNG encoder

    A shallow embedding of [src/create-icon.py].  Python integers are [Z],
    Python floats are IEEE-754 binary64 values ([spec_float] from the
    Standard Library, with round-to-nearest-even), [bytes] objects are lists
    of [Byte.byte], and raised exceptions are carried by a small error monad.
    The C library's [atan2] and zlib's [crc32] and [compress] are not code of
    the repository: they are parameters of the definitions that call them. *)

From Stdlib Require Import ZArith List Lia Bool Zpower.
From Stdlib Require Import Floats.SpecFloat.
From Stdlib Require Import Strings.Byte.
From Stdlib Require Strings.String.
Import String.StringSyntax.
Delimit Scope string_scope with string.
Import ListNotations.
Open Scope Z_scope.

(** ** Exceptions *)

Inductive exn : Set :=
| OverflowError   (* int too large to convert to float *)
| ValueError      (* math domain error; bytes must be in range(0, 256) *)
| StructError.    (* struct.error: argument out of range *)

Inductive result (A : Type) : Type :=
| Ok (a : A)
| Raise (e : exn).
Arguments Ok {A} a.
Arguments Raise {A} e.

Definition bind {A B : Type} (m : result A) (k : A -> result B) : result B :=
  match m with
  | Ok a => k a
  | Raise e => Raise e
  end.

Notation "x <- m ;; k" := (bind m (fun x => k))
  (at level 61, m at next level, right associativity).

(** ** Python floats *)

Module PyFloat.

Definition float := spec_float.

Definition prec : Z := 53.
Definition emax : Z := 1024.

(** The first integer whose nearest double is not finite. *)
Definition overflow_threshold : Z := 2 ^ 1024 - 2 ^ 970.

(** Nearest double of an integer, ties to even. *)
Definition of_Z (n : Z) : float := binary_normalize prec emax n 0 false.

(** [float(n)] for an [int] argument, as the [math] functions apply it:
    [OverflowError] when the rounded value does not fit a double. *)
Definition float_of_int (n : Z) : result float :=
  if Z.abs n <? overflow_threshold then Ok (of_Z n) else Raise OverflowError.

(** Comparison of a float with an integer constant of the source; every
    such constant is exactly representable. *)
Definition gt_int (r : float) (k : Z) : bool := SFltb (of_Z k) r.
Definition lt_int (r : float) (k : Z) : bool := SFltb r (of_Z k).

(** Decimal literals: the double nearest to the written fraction. *)
Definition lit (num den : Z) : float := SFdiv prec emax (of_Z num) (of_Z den).
Definition lit_0_8 : float := Eval vm_compute in lit 8 10.
Definition lit_1_5 : float := Eval vm_compute in lit 15 10.

Definition ltb (a b : float) : bool := SFltb a b.
Definition leb (a b : float) : bool := SFleb a b.

(** [math.sqrt] on an [int]. *)
Definition math_sqrt (n : Z) : result float :=
  f <- float_of_int n ;;
  if n <? 0 then Raise ValueError else Ok (SFsqrt prec emax f).

End PyFloat.
Import PyFloat.

Declare Scope float_scope.
Notation "r >? k" := (gt_int r k) (at level 70, no associativity) : float_scope.
Notation "r <? k" := (lt_int r k) (at level 70, no associativity) : float_scope.
Delimit Scope float_scope with flt.

(** ** The pixel function *)

Section Icon.

(** The C library's [atan2] on doubles. *)
Variable atan2 : float -> float -> float.

(** [math.atan2] on two [int] arguments. *)
Definition math_atan2 (a b : Z) : result float :=
  fa <- float_of_int a ;;
  fb <- float_of_int b ;;
  Ok (atan2 fa fb).

Definition icon (x y : Z) : result (list Z) :=
  let cx := 512 in
  let cy := 512 in
  let dx := Z.abs (x - cx) in
  let dy := Z.abs (y - cy) in
  r <- math_sqrt (dx * dx + dy * dy) ;;
  (* Outer ring *)
  if (r >? 460)%flt then Ok [0; 0; 0; 0] else
  if (r >? 440)%flt then Ok [102; 136; 204; 255] else
  if (r >? 400)%flt then Ok [0; 0; 0; 255] else
  (* LCARS cross bars *)
  if (dy <? 60) && (dx <? 350) then Ok [255; 153; 0; 255] else
  if (dx <? 60) && (dy <? 350) then Ok [102; 204; 204; 255] else
  (* Center dot *)
  let center_dot :=
    if (r <? 120)%flt then Ok [153; 204; 255; 255] else
    if (r <? 125)%flt then Ok [102; 136; 204; 255] else
    Ok [0; 8; 20; 255] in
  (* Inner arc *)
  if (r >? 300)%flt && (r <? 340)%flt then
    angle <- math_atan2 dy dx ;;
    if ltb angle lit_0_8 then Ok [204; 119; 255; 255] else
    if ltb angle lit_1_5 then Ok [102; 136; 204; 255] else
    center_dot
  else center_dot.

End Icon.

(** The squared distance from the centre, the argument of [math.sqrt]. *)
Definition dist2 (x y : Z) : Z :=
  Z.abs (x - 512) * Z.abs (x - 512) + Z.abs (y - 512) * Z.abs (y - 512).

(** [icon] once the radius is known. *)
Definition icon_body (atan2 : float -> float -> float) (dx dy : Z) (r : float)
  : result (list Z) :=
  if (r >? 460)%flt then Ok [0; 0; 0; 0] else
  if (r >? 440)%flt then Ok [102; 136; 204; 255] else
  if (r >? 400)%flt then Ok [0; 0; 0; 255] else
  if (dy <? 60) && (dx <? 350) then Ok [255; 153; 0; 255] else
  if (dx <? 60) && (dy <? 350) then Ok [102; 204; 204; 255] else
  if (r >? 300)%flt && (r <? 340)%flt then
    angle <- math_atan2 atan2 dy dx ;;
    if ltb angle lit_0_8 then Ok [204; 119; 255; 255] else
    if ltb angle lit_1_5 then Ok [102; 136; 204; 255] else
    if (r <? 120)%flt then Ok [153; 204; 255; 255] else
    if (r <? 125)%flt then Ok [102; 136; 204; 255] else
    Ok [0; 8; 20; 255]
  else
    if (r <? 120)%flt then Ok [153; 204; 255; 255] else
    if (r <? 125)%flt then Ok [102; 136; 204; 255] else
    Ok [0; 8; 20; 255].

(** The alpha component of a colour tuple. *)
Definition alpha (c : list Z) : Z := nth 3 c 0.

(** [p] holds at [start], [start + 1], ..., for [count] integers. *)
Fixpoint forall_from (p : Z -> bool) (start : Z) (count : nat) : bool :=
  match count with
  | O => true
  | S count' => p start && forall_from p (start + 1) count'
  end.

(** [math.sqrt n] returns a radius that is not above 400. *)
Definition radius_within_400 (n : Z) : bool :=
  match math_sqrt n with
  | Ok r => negb (r >? 400)%flt
  | Raise _ => false
  end.

(** A libm stand-in that answers the same angle everywhere; it instantiates
    the [atan2] parameter where a closed term is evaluated. *)
Definition atan2_const (a : float) : float -> float -> float := fun _ _ => a.

(** ** Byte strings and [struct.pack] *)

Definition bytes := list byte.

(** One element of [bytes(t)]: [ValueError] outside [range(256)]. *)
Definition byte_of_int (v : Z) : result byte :=
  if (0 <=? v) && (v <? 256) then
    match Byte.of_N (Z.to_N v) with
    | Some b => Ok b
    | None => Raise ValueError
    end
  else Raise ValueError.

(** [bytes(t)] for a tuple of integers. *)
Fixpoint bytes_of_ints (t : list Z) : result bytes :=
  match t with
  | [] => Ok []
  | v :: t' =>
      b <- byte_of_int v ;;
      bs <- bytes_of_ints t' ;;
      Ok (b :: bs)
  end.

(** The value of a byte. *)
Definition int_of_byte (b : byte) : Z := Z.of_N (Byte.to_N b).

(** The byte [(n >> shift) & 0xff]. *)
Definition octet (n shift : Z) : byte :=
  match Byte.of_N (Z.to_N (Z.land (Z.shiftr n shift) 255)) with
  | Some b => b
  | None => x00
  end.

Definition be32 (n : Z) : bytes := [octet n 24; octet n 16; octet n 8; octet n 0].

(** [struct.pack('>I', n)] *)
Definition pack_I (n : Z) : result bytes :=
  if (0 <=? n) && (n <? 2 ^ 32) then Ok (be32 n) else Raise StructError.

(** One ['B'] field. *)
Definition pack_B (n : Z) : result bytes :=
  if (0 <=? n) && (n <? 256) then Ok [octet n 0] else Raise StructError.

(** [struct.pack('>IIBBBBB', a, b, c, d, e, f, g)] *)
Definition pack_IIBBBBB (a b c d e f g : Z) : result bytes :=
  ba <- pack_I a ;;
  bb <- pack_I b ;;
  bc <- pack_B c ;;
  bd <- pack_B d ;;
  be <- pack_B e ;;
  bf <- pack_B f ;;
  bg <- pack_B g ;;
  Ok (ba ++ bb ++ bc ++ bd ++ be ++ bf ++ bg).

(** [range(n)] *)
Definition range (n : Z) : list Z := map Z.of_nat (seq 0 (Z.to_nat n)).

(** [b'\x89PNG\r\n\x1a\n'] *)
Definition png_signature : bytes := [x89; x50; x4e; x47; x0d; x0a; x1a; x0a].
Definition IHDR : bytes := [x49; x48; x44; x52].
Definition IDAT : bytes := [x49; x44; x41; x54].
Definition IEND : bytes := [x49; x45; x4e; x44].

(** ** The encoder *)

Section Encoder.

(** [zlib.crc32] and [zlib.compress]. *)
Variable crc32 : bytes -> Z.
Variable compress : bytes -> bytes.

Definition chunk (ctype data : bytes) : result bytes :=
  let c := ctype ++ data in
  len <- pack_I (Z.of_nat (length data)) ;;
  crc <- pack_I (Z.land (crc32 c) 0xffffffff) ;;
  Ok (len ++ c ++ crc).

Section Scanlines.

Variable pixels : Z -> Z -> result (list Z).

(** The inner loop, [for x in range(width): raw += bytes(pixels(x, y))],
    over the columns still to visit. *)
Fixpoint row_loop (y : Z) (xs : list Z) (raw : bytes) : result bytes :=
  match xs with
  | [] => Ok raw
  | x :: xs' =>
      t <- pixels x y ;;
      b <- bytes_of_ints t ;;
      row_loop y xs' (raw ++ b)
  end.

(** The outer loop, over the rows still to visit. *)
Fixpoint image_loop (width : Z) (ys : list Z) (raw : bytes) : result bytes :=
  match ys with
  | [] => Ok raw
  | y :: ys' =>
      raw' <- row_loop y (range width) (raw ++ [x00]) ;;
      image_loop width ys' raw'
  end.

(** The value of [raw] when the loops of [create_png] are done. *)
Definition raw_scanlines (width height : Z) : result bytes :=
  image_loop width (range height) [].

Definition create_png (width height : Z) : result bytes :=
  raw <- raw_scanlines width height ;;
  ihdr <- pack_IIBBBBB width height 8 6 0 0 0 ;;
  c1 <- chunk IHDR ihdr ;;
  c2 <- chunk IDAT (compress raw) ;;
  c3 <- chunk IEND [] ;;
  Ok (png_signature ++ c1 ++ c2 ++ c3).

End Scanlines.

End Encoder.

(** ** The container as the specification describes it *)

Module Spec.

(** The bytes of one pixel, a byte per component in the order of the tuple;
    none when the pixel function raises. *)
Definition pixel_bytes (pixels : Z -> Z -> result (list Z)) (x y : Z) : bytes :=
  match pixels x y with
  | Ok t => map (fun v => octet v 0) t
  | Raise _ => []
  end.

(** One scanline: the filter byte, then the pixels of the row. *)
Definition scanline (pixels : Z -> Z -> result (list Z)) (width y : Z) : bytes :=
  x00 :: concat (map (fun x => pixel_bytes pixels x y) (range width)).

(** The raw scanline buffer: the scanlines in row-major order. *)
Definition raw_buffer (pixels : Z -> Z -> result (list Z)) (width height : Z) : bytes :=
  concat (map (scanline pixels width) (range height)).

(** The 13-byte header payload. *)
Definition header_payload (width height : Z) : bytes :=
  be32 width ++ be32 height ++ [x08; x06; x00; x00; x00].

(** One chunk: length, type tag, payload, checksum over tag and payload. *)
Definition chunk_bytes (crc32 : bytes -> Z) (t d : bytes) : bytes :=
  be32 (Z.of_nat (length d)) ++ t ++ d ++ be32 (crc32 (t ++ d)).

(** Big-endian value of a byte string. *)
Definition int_of_be (b : bytes) : Z :=
  fold_left (fun acc x => acc * 256 + int_of_byte x) b 0.

(** The first [n] bytes and the rest, when there are that many. *)
Definition take (n : nat) (s : bytes) : option (bytes * bytes) :=
  if (n <=? length s)%nat then Some (firstn n s, skipn n s) else None.

Record chunk_view : Type := {
  ctype : bytes;
  payload : bytes;
  stored_crc : Z
}.

(** Reads one chunk: length, type tag, payload, checksum. *)
Definition read_chunk (s : bytes) : option (chunk_view * bytes) :=
  match take 4 s with
  | None => None
  | Some (len, s1) =>
    match take 4 s1 with
    | None => None
    | Some (t, s2) =>
      match take (Z.to_nat (int_of_be len)) s2 with
      | None => None
      | Some (d, s3) =>
        match take 4 s3 with
        | None => None
        | Some (c, s4) =>
            Some ({| ctype := t; payload := d; stored_crc := int_of_be c |}, s4)
        end
      end
    end
  end.

(** The checksum recomputed over type tag and payload equals the stored one. *)
Definition crc_valid (crc32 : bytes -> Z) (c : chunk_view) : bool :=
  crc32 (ctype c ++ payload c) =? stored_crc c.

(** Reads chunks to the end of the input, refusing a wrong checksum. *)
Fixpoint read_chunks (crc32 : bytes -> Z) (fuel : nat) (s : bytes)
  : option (list chunk_view) :=
  match s with
  | [] => Some []
  | _ :: _ =>
    match fuel with
    | O => None
    | S fuel' =>
      match read_chunk s with
      | None => None
      | Some (c, rest) =>
        if crc_valid crc32 c then
          match read_chunks crc32 fuel' rest with
          | Some cs => Some (c :: cs)
          | None => None
          end
        else None
      end
    end
  end.

(** Reads a whole file: the signature, then the chunks. *)
Definition read_png (crc32 : bytes -> Z) (s : bytes) : option (list chunk_view) :=
  match take 8 s with
  | Some (sig, rest) =>
      if list_eq_dec Byte.byte_eq_dec sig png_signature
      then read_chunks crc32 (length rest) rest
      else None
  | None => None
  end.

(** The payload of the first chunk with the given type tag. *)
Fixpoint find_payload (t : bytes) (cs : list chunk_view) : option bytes :=
  match cs with
  | [] => None
  | c :: cs' =>
      if list_eq_dec Byte.byte_eq_dec (ctype c) t then Some (payload c)
      else find_payload t cs'
  end.

End Spec.

(** ** Reference instances of the zlib parameters

    A bit-serial CRC-32 (reflected polynomial [0xEDB88320]) and a zlib stream
    of stored deflate blocks with its Adler-32 trailer.  They instantiate
    [crc32] and [compress] where a closed term is evaluated, and the
    round trip through the compressor is stated for this stream and its
    decompressor. *)

Module Zlib.

Definition crc32_shift (c : Z) : Z :=
  if Z.odd c then Z.lxor (Z.shiftr c 1) 0xEDB88320 else Z.shiftr c 1.

Definition crc32_update (crc : Z) (b : byte) : Z :=
  Nat.iter 8 crc32_shift (Z.lxor crc (int_of_byte b)).

Definition crc32 (data : bytes) : Z :=
  Z.lxor (fold_left crc32_update data 0xffffffff) 0xffffffff mod 2 ^ 32.

Definition adler32 (data : bytes) : Z :=
  let step (ab : Z * Z) (x : byte) :=
    let a := (fst ab + int_of_byte x) mod 65521 in
    (a, (snd ab + a) mod 65521) in
  let ab := fold_left step data (1, 0) in
  snd ab * 65536 + fst ab.

Definition le16 (n : Z) : bytes := [octet n 0; octet n 8].

(** Stored blocks of at most 65535 bytes; the last one carries BFINAL. *)
Definition block_max : nat := Z.to_nat 65535.

Fixpoint stored_blocks (fuel : nat) (data : bytes) : bytes :=
  match fuel with
  | O => []
  | S fuel' =>
      let len := Z.of_nat (length data) in
      if len <=? 65535 then
        [x01] ++ le16 len ++ le16 (65535 - len) ++ data
      else
        [x00] ++ le16 65535 ++ le16 0 ++ firstn block_max data
              ++ stored_blocks fuel' (skipn block_max data)
  end.

(** Modelled from the spec: [zlib.compress] is the C library's and is not in
    the repository; the specification asks for "a standard deflate-family
    compressor (no explicit compression-level requirement; default level
    acceptable as long as the result decompresses to the exact raw buffer)".
    This one writes a zlib stream (RFC 1950) at level 0: the two header bytes,
    the data in stored deflate blocks (RFC 1951), and the big-endian Adler-32
    of the data. *)
Definition compress (data : bytes) : bytes :=
  [x78; x01] ++ stored_blocks (S (length data)) data ++ be32 (adler32 data).

(** Reads stored blocks from [s], appending their data to [out]; returns the
    data and what follows the final block. *)
Fixpoint inflate_stored (fuel : nat) (s out : bytes) : option (bytes * bytes) :=
  match fuel, s with
  | S fuel', hdr :: l0 :: l1 :: n0 :: n1 :: rest =>
      let len := int_of_byte l0 + 256 * int_of_byte l1 in
      let nlen := int_of_byte n0 + 256 * int_of_byte n1 in
      if len + nlen =? 65535 then
        match Spec.take (Z.to_nat len) rest with
        | Some (d, rest') =>
            if Byte.eqb hdr x01 then Some (out ++ d, rest')
            else if Byte.eqb hdr x00 then inflate_stored fuel' rest' (out ++ d)
            else None
        | None => None
        end
      else None
  | _, _ => None
  end.

(** Modelled from the spec: "the matching decompression routine" for the
    stream above.  It checks the header, reads the stored blocks up to the
    one marked final (each with its length and the complement of the length),
    and accepts the data only when exactly the four bytes of its Adler-32
    follow. *)
Definition decompress (s : bytes) : option bytes :=
  match s with
  | cmf :: flg :: body =>
      if Byte.eqb cmf x78 && Byte.eqb flg x01 then
        match inflate_stored (length body) body [] with
        | Some (out, trailer) =>
            if (length trailer =? 4)%nat && (Spec.int_of_be trailer =? adler32 out)
            then Some out else None
        | None => None
        end
      else None
  | _ => None
  end.

End Zlib.

(** A pixel function that returns a 4-tuple of integers in [0, 256) at
    (x, y). *)
Definition pixel_ok (pixels : Z -> Z -> result (list Z)) (x y : Z) : Prop :=
  exists t, pixels x y = Ok t /\ length t = 4%nat /\
            Forall (fun v => 0 <= v < 256) t.

(** The raw buffer of the 4 x 4 scenario: four rows, each the byte 0x00
    followed by four times the bytes 1, 2, 3, 4. *)
Definition four_by_four : bytes :=
  concat (repeat (x00 :: concat (repeat [x01; x02; x03; x04] 4)) 4).

(** The constant pixel function of the 4 x 4 scenario. *)
Definition constant_pixel (t : list Z) : Z -> Z -> result (list Z) := fun _ _ => Ok t.

(** ** The pixel function over the integers *)

(** The decision list of [icon] with every comparison of the radius
    replaced by the comparison of the squared distance. *)
Definition icon_regions (atan2 : float -> float -> float) (dx dy : Z)
  : result (list Z) :=
  let n := dx * dx + dy * dy in
  if 460 * 460 <? n then Ok [0; 0; 0; 0] else
  if 440 * 440 <? n then Ok [102; 136; 204; 255] else
  if 400 * 400 <? n then Ok [0; 0; 0; 255] else
  if (dy <? 60) && (dx <? 350) then Ok [255; 153; 0; 255] else
  if (dx <? 60) && (dy <? 350) then Ok [102; 204; 204; 255] else
  if (300 * 300 <? n) && (n <? 340 * 340) then
    angle <- math_atan2 atan2 dy dx ;;
    if ltb angle lit_0_8 then Ok [204; 119; 255; 255] else
    if ltb angle lit_1_5 then Ok [102; 136; 204; 255] else
    if n <? 120 * 120 then Ok [153; 204; 255; 255] else
    if n <? 125 * 125 then Ok [102; 136; 204; 255] else
    Ok [0; 8; 20; 255]
  else
    if n <? 120 * 120 then Ok [153; 204; 255; 255] else
    if n <? 125 * 125 then Ok [102; 136; 204; 255] else
    Ok [0; 8; 20; 255].

(** A pixel function that returns a [k]-tuple of integers in [0, 256) at
    (x, y). *)
Definition tuple_ok (k : nat) (pixels : Z -> Z -> result (list Z)) (x y : Z) : Prop :=
  exists t, pixels x y = Ok t /\ length t = k /\
            Forall (fun v => 0 <= v < 256) t.

(** ** The script *)

(** The file the script writes and the lines it prints.  Failures of the
    file system are left out. *)
Record world : Type := {
  app_icon_png : option bytes;
  stdout : list String.string
}.

Section Script.

Variable atan2 : float -> float -> float.
Variable crc32 : bytes -> Z.
Variable compress : bytes -> bytes.

(** What the [with] block leaves behind once [create_png] has returned or
    raised: opening for writing created or truncated the file beforehand. *)
Definition write_and_print (w : world) (r : result bytes) : world * result unit :=
  match r with
  | Ok png =>
      ({| app_icon_png := Some png;
          stdout := stdout w ++ ["Created app-icon.png"%string] |}, Ok tt)
  | Raise e => ({| app_icon_png := Some []; stdout := stdout w |}, Raise e)
  end.

(** [with open('app-icon.png', 'wb') as f: f.write(create_png(1024, 1024, icon))]
    followed by [print('Created app-icon.png')]. *)
Definition main (w : world) : world * result unit :=
  write_and_print w (create_png crc32 compress (icon atan2) 1024 1024).

End Script.

(** * Properties *)

(** ** The order of doubles *)

Module FloatOrder.

Lemma compare_cont_Eq (m1 m2 : positive) :
  PosDef.Pos.compare_cont Eq m1 m2 = (m1 ?= m2)%positive.
Proof. reflexivity. Qed.

Ltac order_cases :=
  repeat match goal with
  | |- context [ (?a ?= ?b) ] => destruct (Z.compare_spec a b); simpl
  | H : context [ (?a ?= ?b) ] |- _ => destruct (Z.compare_spec a b); simpl in H
  | |- context [ (?a ?= ?b)%positive ] => destruct (Pos.compare_spec a b); simpl
  | H : context [ (?a ?= ?b)%positive ] |- _ =>
      destruct (Pos.compare_spec a b); simpl in H
  end.

Ltac by_cases3 a b c :=
  unfold ltb, leb, SFltb, SFleb, SFcompare;
  destruct a as [[]|[]| |[] ? ?], b as [[]|[]| |[] ? ?], c as [[]|[]| |[] ? ?];
  simpl; try congruence; intros; rewrite ?compare_cont_Eq in *; order_cases;
  simpl in *; try congruence; try lia.

Ltac by_cases2 a b :=
  unfold ltb, leb, SFltb, SFleb, SFcompare;
  destruct a as [[]|[]| |[] ? ?], b as [[]|[]| |[] ? ?];
  simpl; try congruence; intros; rewrite ?compare_cont_Eq in *; order_cases;
  simpl in *; try congruence; try lia.

Lemma ltb_trans (a b c : float) :
  ltb a b = true -> ltb b c = true -> ltb a c = true.
Proof. by_cases3 a b c. Qed.

Lemma leb_ltb_trans (a b c : float) :
  leb a b = true -> ltb b c = true -> ltb a c = true.
Proof. by_cases3 a b c. Qed.

Lemma ltb_asym (a b : float) : ltb a b = true -> ltb b a = false.
Proof. by_cases2 a b. Qed.

Lemma leb_not_ltb (a b : float) : leb a b = true -> ltb b a = false.
Proof. by_cases2 a b. Qed.

(** A double above an integer constant is above every smaller one, and
    not below it. *)
Lemma gt_int_weaken (r : float) (k k' : Z) :
  ltb (of_Z k') (of_Z k) = true -> (r >? k)%flt = true -> (r >? k')%flt = true.
Proof. unfold gt_int. intros Hk Hr. exact (ltb_trans _ _ _ Hk Hr). Qed.

Lemma lt_int_not_gt (r : float) (k k' : Z) :
  leb (of_Z k) (of_Z k') = true -> (r <? k)%flt = true -> (r >? k')%flt = false.
Proof.
  unfold gt_int, lt_int. intros Hk Hr.
  destruct (SFltb (of_Z k') r) eqn:E; [|reflexivity].
  pose proof (leb_ltb_trans _ _ _ Hk E) as H1.
  pose proof (ltb_asym _ _ H1) as H2. unfold ltb in *. congruence.
Qed.

Lemma gt_int_not_lt (r : float) (k k' : Z) :
  leb (of_Z k') (of_Z k) = true -> (r >? k)%flt = true -> (r <? k')%flt = false.
Proof.
  unfold gt_int, lt_int. intros Hk Hr.
  destruct (SFltb r (of_Z k')) eqn:E; [|reflexivity].
  pose proof (ltb_trans _ _ _ Hr E) as H1.
  pose proof (leb_not_ltb _ _ Hk) as H2. unfold ltb in *. congruence.
Qed.

End FloatOrder.

(** ** Conversions that succeed *)

Lemma float_of_int_ok (n : Z) :
  Z.abs n < overflow_threshold -> float_of_int n = Ok (of_Z n).
Proof.
  intros H. unfold float_of_int. apply Z.ltb_lt in H. rewrite H. reflexivity.
Qed.

Lemma float_of_int_overflow (n : Z) :
  overflow_threshold <= Z.abs n -> float_of_int n = Raise OverflowError.
Proof.
  intros H. unfold float_of_int. apply Z.ltb_ge in H. rewrite H. reflexivity.
Qed.

Lemma math_sqrt_ok (n : Z) :
  0 <= n < overflow_threshold ->
  math_sqrt n = Ok (SFsqrt prec emax (of_Z n)).
Proof.
  intros [H0 H1]. unfold math_sqrt.
  rewrite float_of_int_ok by (rewrite Z.abs_eq; assumption). simpl.
  apply Z.ltb_ge in H0. rewrite H0. reflexivity.
Qed.

Lemma math_sqrt_overflow (n : Z) :
  overflow_threshold <= n -> math_sqrt n = Raise OverflowError.
Proof.
  intros H. unfold math_sqrt. rewrite float_of_int_overflow; [reflexivity|].
  pose proof (Z.abs_triangle 0 n). lia.
Qed.

Lemma dist2_nonneg (x y : Z) : 0 <= dist2 x y.
Proof. unfold dist2. nia. Qed.

Lemma offsets_le_dist2 (x y : Z) :
  Z.abs (x - 512) <= dist2 x y /\ Z.abs (y - 512) <= dist2 x y.
Proof. unfold dist2. split; nia. Qed.

Lemma icon_unfold (atan2 : float -> float -> float) (x y : Z) :
  icon atan2 x y =
  r <- math_sqrt (dist2 x y) ;;
  icon_body atan2 (Z.abs (x - 512)) (Z.abs (y - 512)) r.
Proof. reflexivity. Qed.

Lemma icon_of_radius (atan2 : float -> float -> float) (x y : Z) (r : float) :
  math_sqrt (dist2 x y) = Ok r ->
  icon atan2 x y = icon_body atan2 (Z.abs (x - 512)) (Z.abs (y - 512)) r.
Proof. intros H. rewrite icon_unfold, H. reflexivity. Qed.

(** ** The pixel function *)

Lemma forall_from_spec (p : Z -> bool) (count : nat) :
  forall start, forall_from p start count = true ->
  forall k, start <= k < start + Z.of_nat count -> p k = true.
Proof.
  induction count as [|count IH]; intros start H k Hk.
  - simpl in Hk. lia.
  - simpl in H. apply andb_true_iff in H. destruct H as [Hs Hrest].
    destruct (Z.eq_dec k start) as [->|Hne]; [assumption|].
    apply (IH (start + 1) Hrest). lia.
Qed.

Lemma radius_within_400_small :
  forall_from radius_within_400 0 (Z.to_nat 6963) = true.
Proof. vm_compute. reflexivity. Qed.

Lemma small_offsets_radius (x y : Z) :
  Z.abs (x - 512) < 60 -> Z.abs (y - 512) < 60 ->
  exists r, math_sqrt (dist2 x y) = Ok r /\ (r >? 400)%flt = false.
Proof.
  intros Hx Hy.
  assert (Hn : 0 <= dist2 x y < 0 + Z.of_nat (Z.to_nat 6963)).
  { rewrite Z2Nat.id by lia. unfold dist2. nia. }
  pose proof (forall_from_spec _ _ _ radius_within_400_small _ Hn) as H.
  unfold radius_within_400 in H.
  destruct (math_sqrt (dist2 x y)) as [r|e]; [|discriminate].
  exists r. split; [reflexivity|]. now apply negb_true_iff.
Qed.

Lemma not_gt_weaken (r : float) (k k' : Z) :
  ltb (of_Z k) (of_Z k') = true -> (r >? k)%flt = false -> (r >? k')%flt = false.
Proof.
  intros Hk Hr. destruct (r >? k')%flt eqn:E; [|reflexivity].
  rewrite (FloatOrder.gt_int_weaken r k' k Hk E) in Hr. discriminate.
Qed.

Section IconProperties.

Variable atan2 : float -> float -> float.

Lemma icon_512_512 : icon atan2 512 512 = Ok [255; 153; 0; 255].
Proof. vm_compute. reflexivity. Qed.

Lemma icon_788_880 :
  math_sqrt (dist2 788 880) = Ok (of_Z 460) /\
  icon atan2 788 880 = Ok [102; 136; 204; 255].
Proof. split; vm_compute; reflexivity. Qed.

Lemma icon_overflow (x y : Z) :
  overflow_threshold <= dist2 x y -> icon atan2 x y = Raise OverflowError.
Proof.
  intros H. rewrite icon_unfold, (math_sqrt_overflow _ H). reflexivity.
Qed.

Lemma math_atan2_ok (x y : Z) :
  dist2 x y < overflow_threshold ->
  math_atan2 atan2 (Z.abs (y - 512)) (Z.abs (x - 512)) =
  Ok (atan2 (of_Z (Z.abs (y - 512))) (of_Z (Z.abs (x - 512)))).
Proof.
  intros H. destruct (offsets_le_dist2 x y) as [Hx Hy].
  unfold math_atan2.
  rewrite !float_of_int_ok by (rewrite Z.abs_eq; lia). reflexivity.
Qed.

End IconProperties.

(** C1, as the code has it.  The centre pixel (512, 512) lies inside both
    cross bars, and the bar rules are tested before the centre-disc rules:
    the pixel function returns the amber bar colour (255,153,0,255) there. *)
Theorem icon_center_is_amber (atan2 : float -> float -> float) :
  icon atan2 512 512 = Ok [255; 153; 0; 255].
Proof. apply icon_512_512. Qed.

(** C1 as stated fails: whatever the C library's [atan2] is, the centre
    pixel is not the light-blue disc colour (153,204,255,255). *)
Lemma icon_center_not_light_blue :
  ~ exists atan2, icon atan2 512 512 = Ok [153; 204; 255; 255].
Proof. intros [a H]. rewrite icon_512_512 in H. discriminate. Qed.

(** C2 as stated fails: (788, 880) is at distance exactly 460.0 from the
    centre, and the colour returned there is not transparent. *)
Lemma icon_r460_not_transparent :
  math_sqrt (dist2 788 880) = Ok (of_Z 460) /\
  ~ exists atan2 c, icon atan2 788 880 = Ok c /\ alpha c = 0.
Proof.
  split; [apply (icon_788_880 (atan2_const S754_nan))|].
  intros [a [c [H Ha]]].
  rewrite (proj2 (icon_788_880 a)) in H. injection H as <-. discriminate.
Qed.

(** C2, as the code has it.  At every pixel whose distance from the centre
    is exactly 460.0 the test [r > 460] is false and [r > 440] is true: the
    pixel function returns the opaque blue-grey ring colour
    (102,136,204,255), with alpha 255. *)
Theorem icon_r460_opaque_ring (atan2 : float -> float -> float) (x y : Z) :
  dist2 x y = 460 * 460 ->
  math_sqrt (dist2 x y) = Ok (of_Z 460) /\
  icon atan2 x y = Ok [102; 136; 204; 255] /\
  alpha [102; 136; 204; 255] = 255.
Proof.
  intros H. rewrite icon_unfold, H.
  repeat split; vm_compute; reflexivity.
Qed.

Lemma icon_r460_opaque_ring_witness :
  dist2 788 880 = 460 * 460 /\
  icon (atan2_const S754_nan) 788 880 = Ok [102; 136; 204; 255].
Proof.
  split; [reflexivity|].
  apply (icon_r460_opaque_ring (atan2_const S754_nan) 788 880). reflexivity.
Defined.

(** C3.  Where both offsets from the centre are below 60 the pixel lies in
    both cross bars; the radius is then at most 400, so none of the outer
    rules applies, and the pixel function returns the amber colour
    (255,153,0,255) of the bar rule that is tested first. *)
Theorem icon_bar_overlap_amber (atan2 : float -> float -> float) (x y : Z) :
  Z.abs (x - 512) < 60 -> Z.abs (y - 512) < 60 ->
  exists r,
    math_sqrt (dist2 x y) = Ok r /\ (r >? 400)%flt = false /\
    icon atan2 x y = Ok [255; 153; 0; 255].
Proof.
  intros Hx Hy.
  destruct (small_offsets_radius x y Hx Hy) as [r [Hr H400]].
  exists r. split; [assumption|]. split; [assumption|].
  rewrite (icon_of_radius atan2 x y r Hr). unfold icon_body.
  rewrite (not_gt_weaken r 400 460), (not_gt_weaken r 400 440), H400
    by (assumption || (vm_compute; reflexivity)).
  assert (Hb : (Z.abs (y - 512) <? 60) && (Z.abs (x - 512) <? 350) = true).
  { apply andb_true_iff. split; apply Z.ltb_lt; lia. }
  rewrite Hb. reflexivity.
Qed.

Lemma icon_bar_overlap_amber_witness :
  Z.abs (540 - 512) < 60 /\ Z.abs (470 - 512) < 60 /\
  exists r,
    math_sqrt (dist2 540 470) = Ok r /\ (r >? 400)%flt = false /\
    icon (atan2_const S754_nan) 540 470 = Ok [255; 153; 0; 255].
Proof.
  split; [reflexivity|]. split; [reflexivity|].
  apply (icon_bar_overlap_amber (atan2_const S754_nan) 540 470); reflexivity.
Defined.

(** C9.  The pixel function is mirror-symmetric about both axes through the
    centre: it depends on x and y only through |x - 512| and |y - 512|. *)
Theorem icon_mirror_symmetric (atan2 : float -> float -> float) (x y : Z) :
  icon atan2 x y = icon atan2 (1024 - x) y /\
  icon atan2 x y = icon atan2 x (1024 - y).
Proof.
  rewrite !icon_unfold. unfold dist2.
  replace (Z.abs (1024 - x - 512)) with (Z.abs (x - 512)) by lia.
  replace (Z.abs (1024 - y - 512)) with (Z.abs (y - 512)) by lia.
  split; reflexivity.
Qed.

(** Whatever the radius and the angle are, [icon_body] ends on one of its
    colour tuples. *)
Lemma icon_body_color
  (atan2 : float -> float -> float) (dx dy : Z) (r angle : float) :
  math_atan2 atan2 dy dx = Ok angle ->
  exists c b,
    icon_body atan2 dx dy r = Ok c /\
    length c = 4%nat /\
    Forall (fun v => 0 <= v <= 255) c /\
    ((r >? 460)%flt = true -> alpha c = 0) /\
    ((r >? 460)%flt = false -> alpha c = 255) /\
    bytes_of_ints c = Ok b /\ length b = 4%nat.
Proof.
  intros Hangle. unfold icon_body. rewrite Hangle. simpl bind.
  generalize (r >? 460)%flt (r >? 440)%flt (r >? 400)%flt (r >? 300)%flt
             (r <? 340)%flt (r <? 120)%flt (r <? 125)%flt
             (ltb angle lit_0_8) (ltb angle lit_1_5)
             ((dy <? 60) && (dx <? 350)) ((dx <? 60) && (dy <? 350)).
  intros b1 b2 b3 b4 b5 b6 b7 b8 b9 b10 b11.
  assert (leaf : forall t : list Z,
    In t [[0; 0; 0; 0]; [102; 136; 204; 255]; [0; 0; 0; 255]; [255; 153; 0; 255];
          [102; 204; 204; 255]; [204; 119; 255; 255]; [153; 204; 255; 255];
          [0; 8; 20; 255]] ->
    (b1 = true <-> t = [0; 0; 0; 0]) ->
    exists c b,
      @Ok (list Z) t = Ok c /\ length c = 4%nat /\
      Forall (fun v => 0 <= v <= 255) c /\
      (b1 = true -> alpha c = 0) /\ (b1 = false -> alpha c = 255) /\
      bytes_of_ints c = Ok b /\ length b = 4%nat).
  { intros t Hin Hb1.
    assert (Ht : b1 = true /\ t = [0; 0; 0; 0] \/ b1 = false /\ alpha t = 255).
    { destruct b1.
      - left. split; [reflexivity|]. now apply Hb1.
      - right. split; [reflexivity|].
        simpl in Hin.
        repeat (destruct Hin as [<-|Hin]; [first [reflexivity
          | (assert (false = true) by now apply Hb1); discriminate]|]).
        destruct Hin. }
    simpl in Hin.
    repeat (destruct Hin as [<-|Hin];
      [eexists; eexists; split; [reflexivity|]; split; [reflexivity|];
       split; [repeat constructor; lia|];
       split; [intros ->; destruct Ht as [[_ E]|[E _]];
               [now inversion E|discriminate]|];
       split; [intros ->; destruct Ht as [[E _]|[_ E]];
               [discriminate|exact E]|];
       split; reflexivity|]).
    destruct Hin. }
  destruct b1;
    [apply leaf; [simpl; tauto|split; reflexivity]|].
  assert (no : forall t : list Z, t <> [0; 0; 0; 0] ->
                 (false = true <-> t = [0; 0; 0; 0])).
  { intros t Ht. split; [discriminate|intros E; contradiction]. }
  destruct b2; [apply leaf; [simpl; tauto|apply no; discriminate]|].
  destruct b3; [apply leaf; [simpl; tauto|apply no; discriminate]|].
  destruct b10; [apply leaf; [simpl; tauto|apply no; discriminate]|].
  destruct b11; [apply leaf; [simpl; tauto|apply no; discriminate]|].
  destruct b4, b5, b8, b9, b6, b7; simpl;
    (apply leaf; [simpl; tauto|apply no; discriminate]).
Qed.

(** C10 as stated fails: far enough from the centre the squared distance
    does not fit a double, [math.sqrt] raises [OverflowError] and the pixel
    function returns no tuple at all. *)
Lemma icon_raises_far_away :
  ~ exists atan2 c, icon atan2 (2 ^ 600) 512 = Ok c.
Proof.
  intros [a [c H]].
  rewrite (icon_overflow a (2 ^ 600) 512) in H; [discriminate|].
  vm_compute. discriminate.
Qed.

(** C10, as the code has it.  Wherever the squared distance from the centre
    fits a double (below 2^1024 - 2^970, which covers the whole canvas), the
    pixel function returns a 4-tuple of integers in [0, 255] whose alpha is
    0 exactly when r > 460 and 255 otherwise, and [bytes()] of the tuple
    succeeds with four bytes. *)
Theorem icon_color_in_range (atan2 : float -> float -> float) (x y : Z) :
  dist2 x y < overflow_threshold ->
  exists r c b,
    math_sqrt (dist2 x y) = Ok r /\
    icon atan2 x y = Ok c /\
    length c = 4%nat /\
    Forall (fun v => 0 <= v <= 255) c /\
    ((r >? 460)%flt = true -> alpha c = 0) /\
    ((r >? 460)%flt = false -> alpha c = 255) /\
    bytes_of_ints c = Ok b /\ length b = 4%nat.
Proof.
  intros Hn.
  pose proof (dist2_nonneg x y) as H0.
  pose proof (math_sqrt_ok (dist2 x y) (conj H0 Hn)) as Hr.
  exists (SFsqrt prec emax (of_Z (dist2 x y))).
  rewrite (icon_of_radius atan2 x y _ Hr).
  destruct (icon_body_color atan2 _ _ (SFsqrt prec emax (of_Z (dist2 x y))) _
              (math_atan2_ok atan2 x y Hn)) as [c [b H]].
  exists c, b. split; [exact Hr|exact H].
Qed.

(** Every coordinate of the 1024 x 1024 canvas is within that range. *)
Lemma canvas_dist2_fits (x y : Z) :
  0 <= x < 1024 -> 0 <= y < 1024 -> dist2 x y < overflow_threshold.
Proof.
  intros Hx Hy.
  apply Z.le_lt_trans with (m := 524288); [unfold dist2; nia|].
  vm_compute. reflexivity.
Qed.

Lemma icon_color_in_range_witness :
  exists r c b,
    math_sqrt (dist2 600 600) = Ok r /\
    icon (atan2_const S754_nan) 600 600 = Ok c /\
    length c = 4%nat /\
    Forall (fun v => 0 <= v <= 255) c /\
    ((r >? 460)%flt = true -> alpha c = 0) /\
    ((r >? 460)%flt = false -> alpha c = 255) /\
    bytes_of_ints c = Ok b /\ length b = 4%nat.
Proof.
  apply (icon_color_in_range (atan2_const S754_nan) 600 600).
  vm_compute. reflexivity.
Defined.

(** * The encoder *)

(** ** Bytes and [struct.pack] *)

Lemma octet_value (n s : Z) :
  int_of_byte (octet n s) = Z.land (Z.shiftr n s) 255.
Proof.
  unfold octet, int_of_byte.
  assert (Hr : 0 <= Z.land (Z.shiftr n s) 255 < 256).
  { change 255 with (Z.ones 8). rewrite Z.land_ones by lia.
    apply Z.mod_pos_bound. lia. }
  destruct (Byte.of_N (Z.to_N (Z.land (Z.shiftr n s) 255))) as [b|] eqn:E.
  - apply Byte.to_of_N in E. rewrite E. apply Z2N.id. lia.
  - apply Byte.of_N_None_iff in E. lia.
Qed.

Lemma int_of_byte_inj (a b : byte) : int_of_byte a = int_of_byte b -> a = b.
Proof.
  unfold int_of_byte. intros H. apply N2Z.inj in H.
  pose proof (Byte.of_to_N a) as Ha. rewrite H, Byte.of_to_N in Ha.
  congruence.
Qed.

Lemma octet_small (v : Z) : 0 <= v < 256 -> int_of_byte (octet v 0) = v.
Proof.
  intros H. rewrite octet_value, Z.shiftr_0_r.
  change 255 with (Z.ones 8). rewrite Z.land_ones by lia.
  apply Z.mod_small. lia.
Qed.

Lemma byte_of_int_ok (v : Z) : 0 <= v < 256 -> byte_of_int v = Ok (octet v 0).
Proof.
  intros H. unfold byte_of_int.
  replace ((0 <=? v) && (v <? 256)) with true
    by (symmetry; apply andb_true_iff; split; [apply Z.leb_le|apply Z.ltb_lt]; lia).
  destruct (Byte.of_N (Z.to_N v)) as [b|] eqn:E.
  - f_equal. apply int_of_byte_inj. rewrite (octet_small v H).
    apply Byte.to_of_N in E. unfold int_of_byte. rewrite E. apply Z2N.id. lia.
  - apply Byte.of_N_None_iff in E. lia.
Qed.

Lemma bytes_of_ints_ok (t : list Z) :
  Forall (fun v => 0 <= v < 256) t ->
  bytes_of_ints t = Ok (map (fun v => octet v 0) t).
Proof.
  induction 1 as [|v t Hv Ht IH]; [reflexivity|].
  simpl. rewrite (byte_of_int_ok v Hv). simpl. rewrite IH. reflexivity.
Qed.

Lemma be32_length (n : Z) : length (be32 n) = 4%nat.
Proof. reflexivity. Qed.

Lemma int_of_be_be32 (n : Z) : 0 <= n < 2 ^ 32 -> Spec.int_of_be (be32 n) = n.
Proof.
  intros H. cbv [Spec.int_of_be be32 fold_left].
  rewrite !octet_value. change 255 with (Z.ones 8).
  rewrite !Z.land_ones, !Z.shiftr_div_pow2 by lia.
  change (2 ^ 8) with 256. change (2 ^ 24) with 16777216.
  change (2 ^ 16) with 65536. change (2 ^ 0) with 1.
  change (2 ^ 32) with 4294967296 in H.
  Z.div_mod_to_equations. lia.
Qed.

Lemma octet_land_mask (v s : Z) :
  0 <= s <= 24 -> octet (Z.land v 0xffffffff) s = octet v s.
Proof.
  intros Hs. apply int_of_byte_inj. rewrite !octet_value.
  apply Z.bits_inj'. intros i Hi.
  rewrite !Z.land_spec, !Z.shiftr_spec, Z.land_spec by lia.
  change 255 with (Z.ones 8). change 0xffffffff with (Z.ones 32).
  destruct (Z.ltb_spec i 8).
  - rewrite (Z.ones_spec_low 32 (i + s)) by lia. rewrite andb_true_r. reflexivity.
  - rewrite (Z.ones_spec_high 8 i) by lia. rewrite !andb_false_r. reflexivity.
Qed.

Lemma be32_land_mask (v : Z) : be32 (Z.land v 0xffffffff) = be32 v.
Proof. unfold be32. rewrite !octet_land_mask by lia. reflexivity. Qed.

Lemma pack_I_ok (n : Z) : 0 <= n < 2 ^ 32 -> pack_I n = Ok (be32 n).
Proof.
  intros H. unfold pack_I.
  replace ((0 <=? n) && (n <? 2 ^ 32)) with true
    by (symmetry; apply andb_true_iff; split; [apply Z.leb_le|apply Z.ltb_lt]; lia).
  reflexivity.
Qed.

Lemma land_mask_range (v : Z) : 0 <= Z.land v 0xffffffff < 2 ^ 32.
Proof.
  change 0xffffffff with (Z.ones 32). rewrite Z.land_ones by lia.
  apply Z.mod_pos_bound. lia.
Qed.

(** ** The scanline loops *)

Lemma in_range (x n : Z) : In x (range n) <-> 0 <= x < n.
Proof.
  unfold range. rewrite in_map_iff. split.
  - intros [k [<- Hk]]. apply in_seq in Hk. lia.
  - intros H. exists (Z.to_nat x). split; [lia|]. apply in_seq. lia.
Qed.

Lemma range_length (n : Z) : 0 <= n -> Z.of_nat (length (range n)) = n.
Proof.
  intros H. unfold range. rewrite length_map, length_seq. lia.
Qed.

Lemma pixel_bytes_ok (pixels : Z -> Z -> result (list Z)) (x y : Z) :
  pixel_ok pixels x y ->
  exists t, pixels x y = Ok t /\
            bytes_of_ints t = Ok (Spec.pixel_bytes pixels x y) /\
            length (Spec.pixel_bytes pixels x y) = 4%nat.
Proof.
  intros [t [Ht [Hlen Hrange]]]. exists t. unfold Spec.pixel_bytes.
  rewrite Ht. split; [reflexivity|]. split.
  - apply bytes_of_ints_ok, Hrange.
  - rewrite length_map. exact Hlen.
Qed.

Lemma row_loop_ok (pixels : Z -> Z -> result (list Z)) (y : Z) (xs : list Z) :
  (forall x, In x xs -> pixel_ok pixels x y) ->
  forall raw,
    row_loop pixels y xs raw =
    Ok (raw ++ concat (map (fun x => Spec.pixel_bytes pixels x y) xs)).
Proof.
  induction xs as [|x xs IH]; intros Hok raw.
  - simpl. rewrite app_nil_r. reflexivity.
  - destruct (pixel_bytes_ok pixels x y (Hok x (or_introl eq_refl)))
      as [t [Ht [Hb _]]].
    simpl. rewrite Ht. simpl. rewrite Hb. simpl.
    rewrite IH by (intros x' Hx'; apply Hok; now right).
    rewrite <- app_assoc. reflexivity.
Qed.

Lemma image_loop_ok
  (pixels : Z -> Z -> result (list Z)) (width : Z) (ys : list Z) :
  (forall x y, In x (range width) -> In y ys -> pixel_ok pixels x y) ->
  forall raw,
    image_loop pixels width ys raw =
    Ok (raw ++ concat (map (Spec.scanline pixels width) ys)).
Proof.
  induction ys as [|y ys IH]; intros Hok raw.
  - simpl. rewrite app_nil_r. reflexivity.
  - simpl. rewrite row_loop_ok
      by (intros x Hx; apply Hok; [assumption|now left]).
    simpl. rewrite IH by (intros x y' Hx Hy'; apply Hok; [assumption|now right]).
    unfold Spec.scanline. rewrite <- !app_assoc. reflexivity.
Qed.

Lemma concat_length_const {A B : Type} (f : A -> list B) (k : nat) (l : list A) :
  (forall a, In a l -> length (f a) = k) ->
  length (concat (map f l)) = (length l * k)%nat.
Proof.
  induction l as [|a l IH]; intros H; [reflexivity|].
  simpl. rewrite length_app, (H a (or_introl eq_refl)), IH; [reflexivity|].
  intros a' Ha'. apply H. now right.
Qed.

Lemma scanline_length (pixels : Z -> Z -> result (list Z)) (width y : Z) :
  0 <= width ->
  (forall x, 0 <= x < width -> pixel_ok pixels x y) ->
  Z.of_nat (length (Spec.scanline pixels width y)) = 1 + width * 4.
Proof.
  intros Hw Hok. unfold Spec.scanline. cbn [length].
  rewrite (concat_length_const (B:=byte) (fun x => Spec.pixel_bytes pixels x y) 4).
  - rewrite Nat2Z.inj_succ, Nat2Z.inj_mul, range_length by assumption. lia.
  - intros x Hx. apply in_range in Hx.
    destruct (pixel_bytes_ok pixels x y (Hok x Hx)) as [_ [_ [_ H]]]. exact H.
Qed.

Lemma raw_buffer_length (pixels : Z -> Z -> result (list Z)) (width height : Z) :
  0 <= width -> 0 <= height ->
  (forall x y, 0 <= x < width -> 0 <= y < height -> pixel_ok pixels x y) ->
  Z.of_nat (length (Spec.raw_buffer pixels width height)) =
  height * (1 + width * 4).
Proof.
  intros Hw Hh Hok. unfold Spec.raw_buffer.
  rewrite (concat_length_const (B:=byte) (Spec.scanline pixels width)
             (Z.to_nat (1 + width * 4))).
  - rewrite Nat2Z.inj_mul, range_length, Z2Nat.id by lia. reflexivity.
  - intros y Hy. apply in_range in Hy.
    rewrite <- (scanline_length pixels width y Hw) by (intros; now apply Hok).
    now rewrite Nat2Z.id.
Qed.

Lemma raw_scanlines_ok (pixels : Z -> Z -> result (list Z)) (width height : Z) :
  (forall x y, 0 <= x < width -> 0 <= y < height -> pixel_ok pixels x y) ->
  raw_scanlines pixels width height = Ok (Spec.raw_buffer pixels width height).
Proof.
  intros Hok. unfold raw_scanlines.
  rewrite image_loop_ok; [reflexivity|].
  intros x y Hx Hy. apply in_range in Hx, Hy. now apply Hok.
Qed.

(** ** Chunks *)

Lemma take_app (n : nat) (a b : bytes) :
  length a = n -> Spec.take n (a ++ b) = Some (a, b).
Proof.
  intros <-. unfold Spec.take.
  replace (length a <=? length (a ++ b))%nat with true
    by (symmetry; apply Nat.leb_le; rewrite length_app; lia).
  f_equal. f_equal.
  - induction a as [|x a IH]; [reflexivity|]. simpl. now rewrite IH.
  - induction a as [|x a IH]; [reflexivity|]. exact IH.
Qed.

Lemma chunk_bytes_length (crc32 : bytes -> Z) (t d : bytes) :
  length (Spec.chunk_bytes crc32 t d) = (8 + length t + length d)%nat.
Proof.
  unfold Spec.chunk_bytes. rewrite !length_app, !be32_length. lia.
Qed.

Lemma chunk_ok (crc32 : bytes -> Z) (t d : bytes) :
  Z.of_nat (length d) < 2 ^ 32 ->
  chunk crc32 t d = Ok (Spec.chunk_bytes crc32 t d).
Proof.
  intros H. unfold chunk, Spec.chunk_bytes.
  rewrite pack_I_ok by lia. cbn [bind].
  rewrite (pack_I_ok _ (land_mask_range _)). cbn [bind].
  rewrite be32_land_mask, <- (app_assoc t d). reflexivity.
Qed.

Lemma chunk_too_long (crc32 : bytes -> Z) (t d : bytes) :
  2 ^ 32 <= Z.of_nat (length d) -> chunk crc32 t d = Raise StructError.
Proof.
  intros H. unfold chunk, pack_I.
  replace (Z.of_nat (length d) <? 2 ^ 32) with false
    by (symmetry; apply Z.ltb_ge; exact H).
  rewrite andb_false_r. reflexivity.
Qed.

Lemma read_chunk_chunk_bytes (crc32 : bytes -> Z) (t d rest : bytes) :
  length t = 4%nat ->
  Z.of_nat (length d) < 2 ^ 32 ->
  0 <= crc32 (t ++ d) < 2 ^ 32 ->
  Spec.read_chunk (Spec.chunk_bytes crc32 t d ++ rest) =
  Some ({| Spec.ctype := t; Spec.payload := d;
           Spec.stored_crc := crc32 (t ++ d) |}, rest).
Proof.
  intros Ht Hd Hc. unfold Spec.read_chunk, Spec.chunk_bytes.
  rewrite <- !app_assoc.
  rewrite (take_app 4 (be32 _) _ (be32_length _)).
  rewrite (take_app 4 t _ Ht).
  rewrite int_of_be_be32 by lia. rewrite Nat2Z.id.
  rewrite (take_app (length d) d _ eq_refl).
  rewrite (take_app 4 (be32 _) _ (be32_length _)).
  rewrite int_of_be_be32 by exact Hc. reflexivity.
Qed.

Lemma read_chunks_step (crc32 : bytes -> Z) (fuel : nat) (t d rest : bytes) :
  length t = 4%nat ->
  Z.of_nat (length d) < 2 ^ 32 ->
  0 <= crc32 (t ++ d) < 2 ^ 32 ->
  Spec.read_chunks crc32 (S fuel) (Spec.chunk_bytes crc32 t d ++ rest) =
  match Spec.read_chunks crc32 fuel rest with
  | Some cs => Some ({| Spec.ctype := t; Spec.payload := d;
                        Spec.stored_crc := crc32 (t ++ d) |} :: cs)
  | None => None
  end.
Proof.
  intros Ht Hd Hc.
  pose proof (read_chunk_chunk_bytes crc32 t d rest Ht Hd Hc) as Hread.
  pose proof (chunk_bytes_length crc32 t d) as Hlen.
  destruct (Spec.chunk_bytes crc32 t d ++ rest) as [|b s] eqn:E.
  - apply (f_equal (@length byte)) in E. rewrite length_app, Hlen in E.
    simpl in E. lia.
  - cbn [Spec.read_chunks]. rewrite Hread.
    unfold Spec.crc_valid. cbn [Spec.ctype Spec.payload Spec.stored_crc].
    rewrite Z.eqb_refl. reflexivity.
Qed.

Lemma read_chunks_more_fuel (crc32 : bytes -> Z) (fuel : nat) :
  forall s cs, Spec.read_chunks crc32 fuel s = Some cs ->
  forall fuel', (fuel <= fuel')%nat -> Spec.read_chunks crc32 fuel' s = Some cs.
Proof.
  induction fuel as [|fuel IH]; intros s cs H fuel' Hle.
  - destruct s; simpl in H; [|discriminate].
    destruct fuel'; exact H.
  - destruct fuel' as [|fuel']; [lia|].
    destruct s as [|b s]; [exact H|].
    cbn [Spec.read_chunks] in *.
    destruct (Spec.read_chunk (b :: s)) as [[c rest]|]; [|discriminate].
    destruct (Spec.crc_valid crc32 c); [|discriminate].
    destruct (Spec.read_chunks crc32 fuel rest) as [cs'|] eqn:E; [|discriminate].
    rewrite (IH rest cs' E fuel') by lia. exact H.
Qed.

Lemma pack_header_ok (width height : Z) :
  0 <= width < 2 ^ 32 -> 0 <= height < 2 ^ 32 ->
  pack_IIBBBBB width height 8 6 0 0 0 = Ok (Spec.header_payload width height).
Proof.
  intros Hw Hh. unfold pack_IIBBBBB.
  rewrite (pack_I_ok width Hw), (pack_I_ok height Hh). reflexivity.
Qed.

Lemma crc32_range (data : bytes) : 0 <= Zlib.crc32 data < 2 ^ 32.
Proof. unfold Zlib.crc32. apply Z.mod_pos_bound. lia. Qed.

(** C5.  For a width and height that are not negative and a pixel function
    returning 4-tuples of integers in [0, 256), the buffer built by the loops
    of [create_png] is the row-major concatenation of the scanlines, each
    the filter byte 0x00 followed by the four bytes of every pixel of the
    row in tuple order; its length is H * (1 + W * 4).  For W = H = 4 and
    the constant pixel (1,2,3,4) the buffer has 68 bytes, each row 0x00
    followed by four times 1,2,3,4. *)
Theorem raw_scanlines_layout :
  (forall (pixels : Z -> Z -> result (list Z)) (width height : Z),
      0 <= width -> 0 <= height ->
      (forall x y, 0 <= x < width -> 0 <= y < height -> pixel_ok pixels x y) ->
      raw_scanlines pixels width height =
        Ok (Spec.raw_buffer pixels width height) /\
      Z.of_nat (length (Spec.raw_buffer pixels width height)) =
        height * (1 + width * 4)) /\
  raw_scanlines (constant_pixel [1; 2; 3; 4]) 4 4 = Ok four_by_four /\
  length four_by_four = 68%nat.
Proof.
  split; [|split; vm_compute; reflexivity].
  intros pixels width height Hw Hh Hok. split.
  - apply raw_scanlines_ok, Hok.
  - apply raw_buffer_length; assumption.
Qed.

Lemma constant_pixel_ok (x y : Z) : pixel_ok (constant_pixel [1; 2; 3; 4]) x y.
Proof.
  exists [1; 2; 3; 4]. split; [reflexivity|]. split; [reflexivity|].
  repeat constructor; lia.
Qed.

Lemma raw_scanlines_layout_witness :
  raw_scanlines (constant_pixel [1; 2; 3; 4]) 4 4 =
    Ok (Spec.raw_buffer (constant_pixel [1; 2; 3; 4]) 4 4) /\
  Z.of_nat (length (Spec.raw_buffer (constant_pixel [1; 2; 3; 4]) 4 4)) =
    4 * (1 + 4 * 4).
Proof.
  apply (proj1 raw_scanlines_layout (constant_pixel [1; 2; 3; 4]) 4 4).
  - lia.
  - lia.
  - intros x y _ _. apply constant_pixel_ok.
Defined.

Lemma create_png_shape
  (crc32 : bytes -> Z) (compress : bytes -> bytes)
  (pixels : Z -> Z -> result (list Z)) (width height : Z) (raw : bytes) :
  0 <= width < 2 ^ 32 -> 0 <= height < 2 ^ 32 ->
  raw_scanlines pixels width height = Ok raw ->
  Z.of_nat (length (compress raw)) < 2 ^ 32 ->
  create_png crc32 compress pixels width height =
    Ok (png_signature
        ++ Spec.chunk_bytes crc32 IHDR (Spec.header_payload width height)
        ++ Spec.chunk_bytes crc32 IDAT (compress raw)
        ++ Spec.chunk_bytes crc32 IEND []) /\
  length (Spec.header_payload width height) = 13%nat.
Proof.
  intros Hw Hh Hraw Hz. split; [|reflexivity].
  unfold create_png. rewrite Hraw. cbn [bind].
  rewrite (pack_header_ok width height Hw Hh). cbn [bind].
  rewrite chunk_ok by (cbv; reflexivity). cbn [bind].
  rewrite chunk_ok by exact Hz. cbn [bind].
  rewrite chunk_ok by (cbv; reflexivity). reflexivity.
Qed.



(** C7.  A chunk is the 4-byte big-endian length of the payload, the type
    tag, the payload, and the 4-byte big-endian CRC-32 of tag and payload;
    reading an emitted chunk back, the checksum recomputed over tag and
    payload equals the stored one. *)
Theorem chunk_layout (crc32 : bytes -> Z) (t d : bytes) :
  length t = 4%nat ->
  Z.of_nat (length d) < 2 ^ 32 ->
  chunk crc32 t d =
    Ok (be32 (Z.of_nat (length d)) ++ t ++ d ++ be32 (crc32 (t ++ d))) /\
  (0 <= crc32 (t ++ d) < 2 ^ 32 ->
   forall rest, exists c,
     Spec.read_chunk
       ((be32 (Z.of_nat (length d)) ++ t ++ d ++ be32 (crc32 (t ++ d))) ++ rest) =
       Some (c, rest) /\
     Spec.ctype c = t /\ Spec.payload c = d /\
     Spec.stored_crc c = crc32 (t ++ d) /\
     Spec.crc_valid crc32 c = true).
Proof.
  intros Ht Hd. split; [apply chunk_ok, Hd|].
  intros Hc rest. eexists. split.
  - apply (read_chunk_chunk_bytes crc32 t d rest Ht Hd Hc).
  - cbn [Spec.ctype Spec.payload Spec.stored_crc]. repeat split.
    unfold Spec.crc_valid. cbn [Spec.ctype Spec.payload Spec.stored_crc].
    apply Z.eqb_refl.
Qed.

Lemma chunk_layout_witness :
  chunk Zlib.crc32 IEND [] =
    Ok (be32 0 ++ IEND ++ [] ++ be32 (Zlib.crc32 (IEND ++ []))) /\
  forall rest, exists c,
    Spec.read_chunk
      ((be32 0 ++ IEND ++ [] ++ be32 (Zlib.crc32 (IEND ++ []))) ++ rest) =
      Some (c, rest) /\
    Spec.ctype c = IEND /\ Spec.payload c = [] /\
    Spec.stored_crc c = Zlib.crc32 (IEND ++ []) /\
    Spec.crc_valid Zlib.crc32 c = true.
Proof.
  destruct (chunk_layout Zlib.crc32 IEND [] eq_refl) as [H1 H2].
  - vm_compute. reflexivity.
  - split; [exact H1|]. apply H2. apply crc32_range.
Defined.

Lemma read_png_create_png
  (crc32 : bytes -> Z) (hdr z : bytes) :
  (forall c, 0 <= crc32 c < 2 ^ 32) ->
  Z.of_nat (length hdr) < 2 ^ 32 ->
  Z.of_nat (length z) < 2 ^ 32 ->
  Spec.read_png crc32
    (png_signature ++ Spec.chunk_bytes crc32 IHDR hdr
       ++ Spec.chunk_bytes crc32 IDAT z ++ Spec.chunk_bytes crc32 IEND []) =
  Some [ {| Spec.ctype := IHDR; Spec.payload := hdr;
            Spec.stored_crc := crc32 (IHDR ++ hdr) |};
         {| Spec.ctype := IDAT; Spec.payload := z;
            Spec.stored_crc := crc32 (IDAT ++ z) |};
         {| Spec.ctype := IEND; Spec.payload := [];
            Spec.stored_crc := crc32 (IEND ++ []) |} ].
Proof.
  intros Hcrc Hh Hz. unfold Spec.read_png.
  rewrite (take_app 8 png_signature _ eq_refl).
  destruct (list_eq_dec byte_eq_dec png_signature png_signature) as [_|Hne];
    [|contradiction].
  apply read_chunks_more_fuel with (fuel := 3%nat).
  - rewrite (read_chunks_step crc32 2 IHDR hdr _ eq_refl Hh (Hcrc _)).
    rewrite (read_chunks_step crc32 1 IDAT z _ eq_refl Hz (Hcrc _)).
    rewrite <- (app_nil_r (Spec.chunk_bytes crc32 IEND [])).
    rewrite (read_chunks_step crc32 0 IEND [] [] eq_refl); [reflexivity| |apply Hcrc].
    cbv. reflexivity.
  - rewrite !length_app, !chunk_bytes_length. lia.
Qed.

Lemma find_idat (c1 c3 : Spec.chunk_view) (z : bytes) (crc : Z) :
  Spec.ctype c1 = IHDR ->
  Spec.find_payload IDAT
    [c1; {| Spec.ctype := IDAT; Spec.payload := z; Spec.stored_crc := crc |}; c3]
  = Some z.
Proof.
  intros H1. cbn [Spec.find_payload]. rewrite H1.
  destruct (list_eq_dec byte_eq_dec IHDR IDAT) as [E|_]; [discriminate E|].
  cbn [Spec.ctype Spec.payload].
  destruct (list_eq_dec byte_eq_dec IDAT IDAT) as [_|Hne]; [reflexivity|contradiction].
Qed.

(** ** The reference zlib stream decompresses to its input *)

Lemma le16_value (n : Z) :
  0 <= n < 65536 ->
  int_of_byte (octet n 0) + 256 * int_of_byte (octet n 8) = n.
Proof.
  intros H. rewrite !octet_value, Z.shiftr_0_r.
  change 255 with (Z.ones 8). rewrite !Z.land_ones, Z.shiftr_div_pow2 by lia.
  change (2 ^ 8) with 256.
  rewrite (Z.mod_small (n / 256) 256) by (Z.div_mod_to_equations; lia).
  Z.div_mod_to_equations; lia.
Qed.

Lemma block_max_value : Z.of_nat Zlib.block_max = 65535.
Proof. unfold Zlib.block_max. apply Z2Nat.id. lia. Qed.

(** The final block gives back its data and leaves what follows it. *)
Lemma inflate_final_block (fuel : nat) (data out trailer : bytes) :
  Z.of_nat (length data) <= 65535 ->
  Zlib.inflate_stored (S fuel)
    ([x01] ++ Zlib.le16 (Z.of_nat (length data))
           ++ Zlib.le16 (65535 - Z.of_nat (length data)) ++ data ++ trailer) out
  = Some (out ++ data, trailer).
Proof.
  intros Hlen. cbn [Zlib.le16 app Zlib.inflate_stored].
  rewrite !le16_value by lia.
  replace (Z.of_nat (length data) + (65535 - Z.of_nat (length data)) =? 65535)
    with true by (symmetry; apply Z.eqb_eq; lia).
  rewrite Nat2Z.id, take_app by reflexivity. reflexivity.
Qed.

(** A full block that is not the final one is appended, and reading goes on. *)
Lemma inflate_full_block (fuel : nat) (block rest out : bytes) :
  length block = Zlib.block_max ->
  Zlib.inflate_stored (S fuel)
    ([x00] ++ Zlib.le16 65535 ++ Zlib.le16 0 ++ block ++ rest) out
  = Zlib.inflate_stored fuel rest (out ++ block).
Proof.
  intros Hlen. cbn [Zlib.le16 app Zlib.inflate_stored].
  rewrite !le16_value by lia.
  change (65535 + 0 =? 65535) with true. cbv iota.
  change (Z.to_nat 65535) with Zlib.block_max.
  rewrite take_app by assumption. reflexivity.
Qed.

Lemma inflate_stored_blocks (fuel : nat) :
  forall (fuel' : nat) (data out trailer : bytes),
    (length data < fuel)%nat -> (length data < fuel')%nat ->
    Zlib.inflate_stored fuel' (Zlib.stored_blocks fuel data ++ trailer) out
    = Some (out ++ data, trailer).
Proof.
  induction fuel as [|fuel IH]; intros fuel' data out trailer Hf Hf'; [lia|].
  destruct fuel' as [|fuel']; [lia|].
  cbn [Zlib.stored_blocks].
  destruct (Z.leb_spec (Z.of_nat (length data)) 65535) as [Hle|Hgt].
  - rewrite <- !app_assoc. now apply inflate_final_block.
  - pose proof block_max_value as Hmax.
    assert (Hfirst : length (firstn Zlib.block_max data) = Zlib.block_max)
      by (apply firstn_length_le; lia).
    rewrite <- !app_assoc.
    rewrite inflate_full_block by assumption.
    rewrite IH by (rewrite length_skipn; lia).
    rewrite <- app_assoc, firstn_skipn. reflexivity.
Qed.

Lemma adler32_range (data : bytes) : 0 <= Zlib.adler32 data < 2 ^ 32.
Proof.
  unfold Zlib.adler32.
  set (step := fun (ab : Z * Z) (x : byte) =>
                 let a := (fst ab + int_of_byte x) mod 65521 in
                 (a, (snd ab + a) mod 65521)).
  assert (H : forall l ab,
             0 <= fst ab < 65521 -> 0 <= snd ab < 65521 ->
             0 <= fst (fold_left step l ab) < 65521 /\
             0 <= snd (fold_left step l ab) < 65521).
  { induction l as [|x l IHl]; intros ab Ha Hb; [now split|].
    cbn [fold_left]. apply IHl; unfold step; cbn [fst snd];
      apply Z.mod_pos_bound; lia. }
  destruct (H data (1, 0)) as [Ha Hb]; cbn [fst snd]; lia.
Qed.

Lemma stored_blocks_covers (fuel : nat) :
  forall data,
    (length data < fuel)%nat ->
    (length data + 5 <= length (Zlib.stored_blocks fuel data))%nat.
Proof.
  induction fuel as [|fuel IH]; intros data Hf; [lia|].
  cbn [Zlib.stored_blocks].
  destruct (Z.leb_spec (Z.of_nat (length data)) 65535) as [Hle|Hgt];
    rewrite !length_app; cbn [length Zlib.le16]; [lia|].
  pose proof block_max_value as Hmax.
  rewrite firstn_length_le by lia.
  specialize (IH (skipn Zlib.block_max data)).
  rewrite length_skipn in IH. lia.
Qed.

(** Every byte string, of any length and so over any number of blocks, comes
    back from the decompressor. *)
Lemma decompress_compress (data : bytes) :
  Zlib.decompress (Zlib.compress data) = Some data.
Proof.
  unfold Zlib.compress, Zlib.decompress. cbn [app].
  change (Byte.eqb x78 x78 && Byte.eqb x01 x01) with true. cbv iota.
  rewrite inflate_stored_blocks.
  - rewrite be32_length, int_of_be_be32 by apply adler32_range.
    cbn [app]. rewrite Nat.eqb_refl, Z.eqb_refl. reflexivity.
  - lia.
  - rewrite length_app, be32_length.
    pose proof (stored_blocks_covers (S (length data)) data). lia.
Qed.

(** The decompressor refuses a stream whose data was altered: the round trip
    is not that of a routine that accepts everything. *)
Example decompress_rejects_damage :
  Zlib.decompress (Zlib.compress [x01; x02; x03]) = Some [x01; x02; x03] /\
  Zlib.decompress
    [x78; x01; x01; x03; x00; xfc; xff; x01; x02; x04; x00; x0d; x00; x07] = None /\
  Zlib.decompress
    [x78; x01; x01; x03; x00; xfc; xff; x01; x02; x03; x00; x0d; x00; x07; x00] = None.
Proof. repeat split; vm_compute; reflexivity. Qed.

(** C8.  Whatever the width, the height and the pixel function, when
    [create_png] returns, its result reads back as a chunk stream whose IDAT
    payload the matching zlib decompressor turns into exactly the raw
    scanline buffer that was passed to the compressor; that buffer has
    length H * (1 + W * 4) when the pixel function returns 4-tuples of
    bytes.  The compressor is the zlib stream of [Zlib.compress], for which
    the round trip is proved for every input ([decompress_compress]); the
    checksum routine stays a parameter. *)
Theorem idat_roundtrip
  (crc32 : bytes -> Z)
  (pixels : Z -> Z -> result (list Z)) (width height : Z) (raw : bytes) :
  (forall c, 0 <= crc32 c < 2 ^ 32) ->
  0 <= width < 2 ^ 32 -> 0 <= height < 2 ^ 32 ->
  raw_scanlines pixels width height = Ok raw ->
  Z.of_nat (length (Zlib.compress raw)) < 2 ^ 32 ->
  exists png chunks z,
    create_png crc32 Zlib.compress pixels width height = Ok png /\
    Spec.read_png crc32 png = Some chunks /\
    Spec.find_payload IDAT chunks = Some z /\
    Zlib.decompress z = Some raw /\
    ((forall x y, 0 <= x < width -> 0 <= y < height -> pixel_ok pixels x y) ->
     Z.of_nat (length raw) = height * (1 + width * 4)).
Proof.
  intros Hcrc Hw Hh Hraw Hz.
  destruct (create_png_shape crc32 Zlib.compress pixels width height raw
              Hw Hh Hraw Hz) as [Hpng _].
  eexists. eexists. exists (Zlib.compress raw).
  split; [exact Hpng|]. split.
  - apply (read_png_create_png crc32 _ (Zlib.compress raw) Hcrc); [|exact Hz].
    cbv. reflexivity.
  - split; [apply find_idat; reflexivity|].
    split; [apply decompress_compress|].
    intros Hok.
    rewrite (raw_scanlines_ok pixels width height Hok) in Hraw.
    injection Hraw as <-. apply raw_buffer_length; [lia|lia|exact Hok].
Qed.

Lemma idat_roundtrip_witness :
  exists png chunks z,
    create_png Zlib.crc32 Zlib.compress (constant_pixel [1; 2; 3; 4]) 4 4 = Ok png /\
    Spec.read_png Zlib.crc32 png = Some chunks /\
    Spec.find_payload IDAT chunks = Some z /\
    Zlib.decompress z = Some four_by_four /\
    ((forall x y, 0 <= x < 4 -> 0 <= y < 4 ->
                  pixel_ok (constant_pixel [1; 2; 3; 4]) x y) ->
     Z.of_nat (length four_by_four) = 4 * (1 + 4 * 4)).
Proof.
  apply (idat_roundtrip Zlib.crc32 (constant_pixel [1; 2; 3; 4]) 4 4 four_by_four).
  - apply crc32_range.
  - lia.
  - lia.
  - vm_compute. reflexivity.
  - vm_compute. reflexivity.
Defined.

(** The reference CRC-32 and Adler-32 on their usual check strings. *)
Example zlib_check_values :
  Zlib.crc32 [x31; x32; x33; x34; x35; x36; x37; x38; x39] = 0xCBF43926 /\
  Zlib.adler32 [x57; x69; x6b; x69; x70; x65; x64; x69; x61] = 0x11E60398.
Proof. split; vm_compute; reflexivity. Qed.

(** * More on the pixel function *)

(** ** Binary digits *)

Lemma digits2_bounds (p : positive) :
  2 ^ (Zpos (digits2_pos p) - 1) <= Zpos p < 2 ^ Zpos (digits2_pos p).
Proof.
  induction p as [p IH|p IH|]; cbn [digits2_pos].
  - rewrite Pos2Z.inj_succ.
    replace (Z.succ (Zpos (digits2_pos p)) - 1) with (Zpos (digits2_pos p)) by lia.
    rewrite Z.pow_succ_r by lia.
    replace (Zpos (digits2_pos p)) with (Zpos (digits2_pos p) - 1 + 1) at 1 by lia.
    rewrite Z.pow_add_r in * by lia. lia.
  - rewrite Pos2Z.inj_succ.
    replace (Z.succ (Zpos (digits2_pos p)) - 1) with (Zpos (digits2_pos p)) by lia.
    rewrite Z.pow_succ_r by lia.
    replace (Zpos (digits2_pos p)) with (Zpos (digits2_pos p) - 1 + 1) at 1 by lia.
    rewrite Z.pow_add_r in * by lia. lia.
  - simpl. lia.
Qed.

Lemma digits2_unique (p : positive) (d : Z) :
  2 ^ (d - 1) <= Zpos p < 2 ^ d -> Zpos (digits2_pos p) = d.
Proof.
  intros [Hlo Hhi]. pose proof (digits2_bounds p) as [Blo Bhi].
  assert (Hd : 0 < d).
  { destruct (Z.ltb_spec 0 d); [assumption|].
    destruct (Z.eq_dec d 0) as [->|]; [simpl in Hhi; lia|].
    rewrite Z.pow_neg_r in Hhi by lia. lia. }
  destruct (Z.lt_trichotomy (Zpos (digits2_pos p)) d) as [Hlt|[Heq|Hgt]];
    [|assumption|].
  - assert (2 ^ Zpos (digits2_pos p) <= 2 ^ (d - 1))
      by (apply Z.pow_le_mono_r; lia). lia.
  - assert (2 ^ d <= 2 ^ (Zpos (digits2_pos p) - 1))
      by (apply Z.pow_le_mono_r; lia). lia.
Qed.

Lemma iter_xO_value (p s : positive) :
  Zpos (Pos.iter xO p s) = Zpos p * 2 ^ Zpos s.
Proof.
  change (Pos.iter xO p s) with (shift_pos s p).
  rewrite shift_pos_correct, Z.pow_pos_fold. lia.
Qed.

(** ** Rounding a 53-bit mantissa *)

Lemma shr_fexp_53 (m : positive) (e : Z) (l : location) :
  Zpos (digits2_pos m) = 53 -> -1074 <= e ->
  shr_fexp prec emax (Zpos m) e l = (shr_record_of_loc (Zpos m) l, e).
Proof.
  intros Hd He. unfold shr_fexp, fexp, emin, prec, emax. cbn [Zdigits2].
  rewrite Hd.
  replace (Z.max (53 + e - 53) (3 - 1024 - 53) - e) with 0 by lia.
  reflexivity.
Qed.

Lemma shr_fexp_54 (m : positive) (e : Z) :
  Zpos (digits2_pos m) = 53 -> -1074 <= e ->
  shr_fexp prec emax (Zpos m~0) e loc_Exact =
  ({| shr_m := Zpos m; shr_r := false; shr_s := false |}, e + 1).
Proof.
  intros Hd He. unfold shr_fexp, fexp, emin, prec, emax. cbn [Zdigits2 digits2_pos].
  rewrite Pos2Z.inj_succ, Hd.
  replace (Z.max (Z.succ 53 + e - 53) (3 - 1024 - 53) - e) with 1 by lia.
  reflexivity.
Qed.

Lemma loc_of_shr_record_of_loc (m : Z) (l : location) :
  l <> loc_Inexact Eq \/ True ->
  loc_of_shr_record (shr_record_of_loc m l) = l /\
  shr_m (shr_record_of_loc m l) = m.
Proof. intros _. destruct l as [|[]]; split; reflexivity. Qed.

Lemma round_aux_exact (m : positive) (e : Z) :
  Zpos (digits2_pos m) = 53 -> -1074 <= e <= 971 ->
  binary_round_aux prec emax false (Zpos m) e loc_Exact = S754_finite false m e.
Proof.
  intros Hd He. unfold binary_round_aux.
  rewrite (shr_fexp_53 m e loc_Exact Hd) by lia.
  cbn [shr_record_of_loc shr_m loc_of_shr_record round_nearest_even].
  rewrite (shr_fexp_53 m e loc_Exact Hd) by lia.
  cbn [shr_record_of_loc shr_m]. unfold prec, emax.
  replace (e <=? 1024 - 53) with true by (symmetry; apply Z.leb_le; lia).
  reflexivity.
Qed.

(** The nearest double of a positive integer below 2^53 is the integer
    itself, with a 53-bit mantissa. *)
Lemma of_Z_exact (n : Z) :
  0 < n < 2 ^ 53 ->
  exists m e,
    of_Z n = S754_finite false m e /\
    Zpos (digits2_pos m) = 53 /\ -52 <= e <= 0 /\ Zpos m = n * 2 ^ (- e).
Proof.
  intros [H0 H53]. destruct n as [|p|p]; try lia.
  pose proof (digits2_bounds p) as [Blo Bhi].
  set (d := Zpos (digits2_pos p)) in *.
  assert (Hd : 1 <= d <= 53).
  { split; [subst d; lia|].
    destruct (Z.leb_spec d 53); [assumption|].
    assert (2 ^ 53 <= 2 ^ (d - 1)) by (apply Z.pow_le_mono_r; lia). lia. }
  unfold of_Z, binary_normalize, binary_round.
  assert (Hf : fexp prec emax (Zpos (digits2_pos p) + 0) = d - 53).
  { unfold fexp, emin, prec, emax. fold d. lia. }
  rewrite Hf. unfold shl_align.
  destruct (d - 53 - 0) as [|s|s] eqn:Es; try lia.
  - assert (d = 53) by lia.
    exists p, 0. split; [apply round_aux_exact; [subst d; lia|lia]|].
    split; [subst d; lia|]. split; [lia|]. simpl. lia.
  - assert (Hs : Zpos s = 53 - d) by lia.
    pose proof (iter_xO_value p s) as Hv.
    assert (Hdm : Zpos (digits2_pos (Pos.iter xO p s)) = 53).
    { apply digits2_unique. rewrite Hv, Hs.
      assert (Hc : 0 < 2 ^ (53 - d)) by (apply Z.pow_pos_nonneg; lia).
      assert (E1 : 2 ^ (53 - 1) = 2 ^ (d - 1) * 2 ^ (53 - d))
        by (rewrite <- Z.pow_add_r by lia; f_equal; lia).
      assert (E2 : 2 ^ 53 = 2 ^ d * 2 ^ (53 - d))
        by (rewrite <- Z.pow_add_r by lia; f_equal; lia).
      rewrite E1, E2. split.
      - apply Z.mul_le_mono_nonneg_r; lia.
      - apply Z.mul_lt_mono_pos_r; lia. }
    exists (Pos.iter xO p s), (d - 53).
    split; [apply round_aux_exact; [exact Hdm|lia]|].
    split; [exact Hdm|]. split; [lia|].
    rewrite Hv, Hs. f_equal. f_equal. lia.
Qed.

(** ** The square root of a 53-bit mantissa *)

Lemma round_aux_53 (q : positive) (e : Z) (l : location) :
  Zpos (digits2_pos q) = 53 -> -1074 <= e <= 900 ->
  exists mr er,
    binary_round_aux prec emax false (Zpos q) e l = S754_finite false mr er /\
    Zpos (digits2_pos mr) = 53 /\ e <= er <= e + 1 /\
    Zpos mr * 2 ^ (er - e) = round_nearest_even (Zpos q) l.
Proof.
  intros Hd He. unfold binary_round_aux.
  rewrite (shr_fexp_53 q e l Hd) by lia.
  destruct (loc_of_shr_record_of_loc (Zpos q) l (or_intror I)) as [-> ->].
  pose proof (digits2_bounds q) as [Blo Bhi]. rewrite Hd in Blo, Bhi.
  assert (Hq1 : round_nearest_even (Zpos q) l = Zpos q \/
                round_nearest_even (Zpos q) l = Zpos q + 1).
  { destruct l as [|[]]; cbn [round_nearest_even]; auto.
    destruct (Z.even (Zpos q)); auto. }
  assert (Hcase : round_nearest_even (Zpos q) l < 2 ^ 53 \/
                  round_nearest_even (Zpos q) l = 2 ^ 53) by lia.
  destruct Hcase as [Hlt|Heq].
  - destruct (round_nearest_even (Zpos q) l) as [|q1|q1] eqn:Eq1; try lia.
    assert (Hd1 : Zpos (digits2_pos q1) = 53) by (apply digits2_unique; lia).
    rewrite (shr_fexp_53 q1 e loc_Exact Hd1) by lia.
    cbn [shr_record_of_loc shr_m]. unfold prec, emax.
    replace (e <=? 1024 - 53) with true by (symmetry; apply Z.leb_le; lia).
    exists q1, e. split; [reflexivity|]. split; [exact Hd1|].
    split; [lia|]. rewrite Z.sub_diag. simpl. lia.
  - rewrite Heq.
    change (2 ^ 53) with (Zpos (4503599627370496~0)).
    assert (Hd1 : Zpos (digits2_pos 4503599627370496) = 53) by reflexivity.
    rewrite (shr_fexp_54 4503599627370496 e Hd1) by lia.
    cbn [shr_m]. unfold prec, emax.
    replace (e + 1 <=? 1024 - 53) with true by (symmetry; apply Z.leb_le; lia).
    exists 4503599627370496%positive, (e + 1).
    split; [reflexivity|]. split; [exact Hd1|]. split; [lia|].
    replace (e + 1 - e) with 1 by lia. reflexivity.
Qed.

Lemma sqrtrem_sqrt (M : Z) :
  0 <= M ->
  exists q r, Z.sqrtrem M = (q, r) /\ M = q * q + r /\ 0 <= r <= 2 * q /\ 0 <= q.
Proof.
  intros HM. pose proof (Z.sqrtrem_spec M HM) as H.
  destruct (Z.sqrtrem M) as [q r]. exists q, r.
  destruct H as [H1 H2]. split; [reflexivity|]. split; [exact H1|].
  split; [exact H2|]. nia.
Qed.

(** The square root of a double with mantissa [m] of 53 bits and exponent
    [e] in [-52, 0]: a 53-bit mantissa whose value, scaled by 2^53, is
    [q1 * 2^(53 - t)], where [q1] is the integer square root of
    [m * 2^(e + 2 * t)] or its successor, and the root itself when that
    number is a perfect square. *)
Lemma sqrt_finite_form (m : positive) (e : Z) :
  Zpos (digits2_pos m) = 53 -> -52 <= e <= 0 ->
  exists mr er q1 t,
    SFsqrt prec emax (S754_finite false m e) = S754_finite false mr er /\
    Zpos (digits2_pos mr) = 53 /\ -53 <= er <= 0 /\
    26 <= t <= 52 /\ 0 <= e + 2 * t /\
    Zpos mr * 2 ^ (er + 53) = q1 * 2 ^ (53 - t) /\
    (exists q r, Zpos m * 2 ^ (e + 2 * t) = q * q + r /\ 0 <= r <= 2 * q /\
                 0 <= q /\ (q1 = q \/ q1 = q + 1) /\ (r = 0 -> q1 = q)).
Proof.
  intros Hd He. unfold SFsqrt, SFsqrt_core_binary. cbn [Zdigits2]. rewrite Hd.
  set (E := Z.div2 (53 + e + 1)).
  assert (HE : 2 * E <= 54 + e <= 2 * E + 1)
    by (subst E; rewrite Z.div2_div; Z.div_mod_to_equations; lia).
  assert (Hf : Z.min (fexp prec emax E) (Z.div2 e) = E - 53).
  { unfold fexp, emin, prec, emax. rewrite Z.div2_div.
    Z.div_mod_to_equations. lia. }
  rewrite Hf.
  pose proof (digits2_bounds m) as [Blo Bhi]. rewrite Hd in Blo, Bhi.
  destruct (e - 2 * (E - 53)) as [|s|s] eqn:Es; try lia.
  rewrite Z.shiftl_mul_pow2 by lia.
  destruct (sqrtrem_sqrt (Zpos m * 2 ^ Zpos s)) as [q [r [Hqr [HM [Hr Hq]]]]]; [lia|].
  rewrite Hqr.
  assert (Hs : 52 <= Zpos s <= 53) by lia.
  assert (HMb : 2 ^ 104 <= Zpos m * 2 ^ Zpos s < 2 ^ 106).
  { assert (Zpos s = 52 \/ Zpos s = 53) as [->| ->] by lia.
    - change (2 ^ 104) with (2 ^ 52 * 2 ^ 52). change (2 ^ 106) with (4 * 2 ^ 52 * 2 ^ 52).
      change (2 ^ (53 - 1)) with (2 ^ 52) in Blo. change (2 ^ 53) with (2 * 2 ^ 52) in Bhi.
      assert (0 < 2 ^ 52) by (apply Z.pow_pos_nonneg; lia). nia.
    - change (2 ^ 104) with (2 ^ 52 * 2 ^ 52). change (2 ^ 106) with (2 * 2 ^ 52 * 2 ^ 53).
      change (2 ^ (53 - 1)) with (2 ^ 52) in Blo.
      assert (0 < 2 ^ 52) by (apply Z.pow_pos_nonneg; lia).
      assert (2 ^ 53 = 2 * 2 ^ 52) by reflexivity. nia. }
  assert (Hqb : 2 ^ 52 <= q < 2 ^ 53).
  { change (2 ^ 104) with (2 ^ 52 * 2 ^ 52) in HMb.
    change (2 ^ 106) with (2 ^ 53 * 2 ^ 53) in HMb.
    assert (0 < 2 ^ 52) by (apply Z.pow_pos_nonneg; lia).
    assert (0 < 2 ^ 53) by (apply Z.pow_pos_nonneg; lia).
    split; nia. }
  destruct q as [|qp|qp]; try (simpl in Hqb; lia).
  assert (Hdq : Zpos (digits2_pos qp) = 53) by (apply digits2_unique; exact Hqb).
  set (l := if r =? 0 then loc_Exact
            else loc_Inexact (if r <=? Zpos qp then Lt else Gt)).
  destruct (round_aux_53 qp (E - 53) l Hdq) as [mr [er [Hres [Hdr [Her Hval]]]]]; [lia|].
  exists mr, er, (round_nearest_even (Zpos qp) l), (53 - E).
  split; [exact Hres|]. split; [exact Hdr|]. split; [lia|]. split; [lia|].
  split; [lia|]. split.
  - rewrite <- Hval.
    replace (53 - (53 - E)) with E by lia.
    replace (er + 53) with ((er - (E - 53)) + E) by lia.
    rewrite Z.pow_add_r by lia. lia.
  - exists (Zpos qp), r.
    replace (e + 2 * (53 - E)) with (Zpos s) by lia.
    split; [exact HM|]. split; [exact Hr|]. split; [lia|].
    subst l. destruct (Z.eqb_spec r 0) as [->|Hr0].
    + cbn [round_nearest_even]. split; [now left|auto].
    + destruct (r <=? Zpos qp); cbn [round_nearest_even];
        (split; [auto|intros; contradiction]).
Qed.

(** ** Comparing doubles by value *)

Lemma ltb_by_value (m1 m2 : positive) (e1 e2 : Z) :
  Zpos (digits2_pos m1) = 53 -> Zpos (digits2_pos m2) = 53 ->
  -53 <= e1 -> -53 <= e2 ->
  SFltb (S754_finite false m1 e1) (S754_finite false m2 e2) =
  (Zpos m1 * 2 ^ (e1 + 53) <? Zpos m2 * 2 ^ (e2 + 53)).
Proof.
  intros H1 H2 He1 He2.
  pose proof (digits2_bounds m1) as [L1 U1]. rewrite H1 in L1, U1.
  pose proof (digits2_bounds m2) as [L2 U2]. rewrite H2 in L2, U2.
  change (2 ^ (53 - 1)) with (2 ^ 52) in *.
  assert (E53 : 2 ^ 53 = 2 * 2 ^ 52) by reflexivity.
  assert (P52 : 0 < 2 ^ 52) by (apply Z.pow_pos_nonneg; lia).
  unfold SFltb, SFcompare.
  rewrite FloatOrder.compare_cont_Eq.
  destruct (Z.compare_spec e1 e2) as [Heq|Hlt|Hgt].
  - subst e2.
    assert (Hc : 0 < 2 ^ (e1 + 53)) by (apply Z.pow_pos_nonneg; lia).
    destruct (Pos.compare_spec m1 m2) as [Hm|Hm|Hm]; symmetry.
    + subst m2. apply Z.ltb_irrefl.
    + apply Z.ltb_lt. apply Z.mul_lt_mono_pos_r; lia.
    + apply Z.ltb_ge. apply Z.mul_le_mono_nonneg_r; lia.
  - symmetry. apply Z.ltb_lt.
    replace (e2 + 53) with ((e1 + 53) + (e2 - e1)) by lia.
    rewrite (Z.pow_add_r 2 (e1 + 53) (e2 - e1)) by lia.
    assert (Hc : 0 < 2 ^ (e1 + 53)) by (apply Z.pow_pos_nonneg; lia).
    assert (Hd : 2 <= 2 ^ (e2 - e1)).
    { change 2 with (2 ^ 1) at 1. apply Z.pow_le_mono_r; lia. }
    assert (Zpos m1 < Zpos m2 * 2 ^ (e2 - e1)) by nia.
    rewrite (Z.mul_comm (2 ^ (e1 + 53))), Z.mul_assoc.
    apply Z.mul_lt_mono_pos_r; lia.
  - symmetry. apply Z.ltb_ge.
    replace (e1 + 53) with ((e2 + 53) + (e1 - e2)) by lia.
    rewrite (Z.pow_add_r 2 (e2 + 53) (e1 - e2)) by lia.
    assert (Hc : 0 < 2 ^ (e2 + 53)) by (apply Z.pow_pos_nonneg; lia).
    assert (Hd : 2 <= 2 ^ (e1 - e2)).
    { change 2 with (2 ^ 1) at 1. apply Z.pow_le_mono_r; lia. }
    assert (Zpos m2 <= Zpos m1 * 2 ^ (e1 - e2)) by nia.
    rewrite (Z.mul_comm (2 ^ (e2 + 53))), Z.mul_assoc.
    apply Z.mul_le_mono_nonneg_r; lia.
Qed.

(** ** [math.sqrt] of an integer against an integer constant *)

Lemma sqrt_scaled (n : Z) :
  0 < n < 2 ^ 53 ->
  exists mr er q1 T U q r,
    SFsqrt prec emax (of_Z n) = S754_finite false mr er /\
    Zpos (digits2_pos mr) = 53 /\ -53 <= er /\
    2 ^ 26 <= T /\ 0 < U /\ T * U = 2 ^ 53 /\
    Zpos mr * 2 ^ (er + 53) = q1 * U /\
    n * (T * T) = q * q + r /\ 0 <= r <= 2 * q /\ 0 <= q /\
    (q1 = q \/ q1 = q + 1) /\ (r = 0 -> q1 = q).
Proof.
  intros Hn.
  destruct (of_Z_exact n Hn) as [m [e [Hof [Hd [He Hm]]]]].
  destruct (sqrt_finite_form m e Hd He)
    as [mr [er [q1 [t [Hs [Hdr [Her [Ht [Het [Hval [q [r [HM [Hr [Hq [Hq1 Hex]]]]]]]]]]]]]]]].
  exists mr, er, q1, (2 ^ t), (2 ^ (53 - t)), q, r.
  rewrite Hof. split; [exact Hs|]. split; [exact Hdr|]. split; [lia|].
  split; [apply Z.pow_le_mono_r; lia|].
  split; [apply Z.pow_pos_nonneg; lia|].
  split; [rewrite <- Z.pow_add_r by lia; f_equal; lia|].
  split; [exact Hval|]. split; [|auto].
  rewrite <- HM, Hm, <- Z.pow_add_r by lia.
  rewrite <- Z.mul_assoc, <- Z.pow_add_r by lia.
  f_equal. f_equal. lia.
Qed.

Lemma of_Z_scaled (k : Z) :
  0 < k < 2 ^ 53 ->
  exists mk ek,
    of_Z k = S754_finite false mk ek /\
    Zpos (digits2_pos mk) = 53 /\ -53 <= ek /\
    Zpos mk * 2 ^ (ek + 53) = k * 2 ^ 53.
Proof.
  intros Hk. destruct (of_Z_exact k Hk) as [m [e [Hof [Hd [He Hm]]]]].
  exists m, e. split; [exact Hof|]. split; [exact Hd|]. split; [lia|].
  rewrite Hm, <- Z.mul_assoc, <- Z.pow_add_r by lia. f_equal. f_equal. lia.
Qed.

Lemma small_below_2_53 (k : Z) : 0 < k < 2 ^ 25 -> 0 < k < 2 ^ 53.
Proof.
  intros [H0 H1]. split; [assumption|].
  apply Z.lt_trans with (1 := H1). reflexivity.
Qed.

(** The integer argument behind both comparisons: [q1] is the rounded
    square root of [n * T^2] and [u = k * T]. *)
Lemma rounded_root_vs_constant (n k T q r q1 : Z) :
  0 < k -> 2 * k + 1 <= T ->
  n * (T * T) = q * q + r -> 0 <= r <= 2 * q -> 0 <= q ->
  (q1 = q \/ q1 = q + 1) -> (r = 0 -> q1 = q) ->
  (k * k < n -> k * T < q1) /\ (n <= k * k -> q1 <= k * T) /\
  (n < k * k -> q1 < k * T) /\ (k * k <= n -> k * T <= q1).
Proof.
  intros Hk HT HM Hr Hq Hq1 Hex.
  set (u := k * T).
  assert (Huu : k * k * (T * T) = u * u) by (subst u; ring).
  assert (HT0 : 0 <= T * T) by (apply Z.mul_nonneg_nonneg; lia).
  assert (Hu1 : 1 <= u).
  { subst u. assert (0 < k * T) by (apply Z.mul_pos_pos; lia). lia. }
  assert (HT2 : 2 * u + 1 <= T * T).
  { assert ((2 * k + 1) * T <= T * T)
      by (apply Z.mul_le_mono_nonneg_r; lia).
    assert ((2 * k + 1) * T = 2 * u + T) by (subst u; ring). lia. }
  repeat split.
  - intros Hlt.
    assert ((k * k + 1) * (T * T) <= n * (T * T))
      by (apply Z.mul_le_mono_nonneg_r; lia).
    assert ((k * k + 1) * (T * T) = u * u + T * T) by (rewrite <- Huu; ring).
    destruct (Z.lt_ge_cases u q) as [|Hle]; [lia|exfalso].
    assert ((q + 1) * (q + 1) <= (u + 1) * (u + 1))
      by (apply Z.square_le_mono_nonneg; lia).
    lia.
  - intros Hle.
    assert (n * (T * T) <= k * k * (T * T))
      by (apply Z.mul_le_mono_nonneg_r; lia).
    destruct (Z.le_gt_cases q u) as [Hqu|Hgt].
    + destruct (Z.eq_dec q u) as [Heq|Hne]; [|lia].
      assert (r = 0) by (rewrite Heq in HM; lia).
      rewrite (Hex H0). lia.
    + exfalso.
      assert ((u + 1) * (u + 1) <= q * q)
        by (apply Z.square_le_mono_nonneg; lia).
      lia.
  - intros Hlt.
    assert (n * (T * T) <= (k * k - 1) * (T * T))
      by (apply Z.mul_le_mono_nonneg_r; lia).
    assert ((k * k - 1) * (T * T) = u * u - T * T) by (rewrite <- Huu; ring).
    destruct (Z.lt_ge_cases (q + 1) u) as [|Hge]; [lia|exfalso].
    assert ((u - 1) * (u - 1) <= q * q)
      by (apply Z.square_le_mono_nonneg; lia).
    lia.
  - intros Hge.
    assert (k * k * (T * T) <= n * (T * T))
      by (apply Z.mul_le_mono_nonneg_r; lia).
    destruct (Z.le_gt_cases u q) as [|Hgt]; [lia|exfalso].
    assert ((q + 1) * (q + 1) <= u * u)
      by (apply Z.square_le_mono_nonneg; lia).
    lia.
Qed.

(** For an integer [n] below 2^53 and an integer constant [k] below 2^25,
    [math.sqrt(n) > k] holds exactly when [n > k * k]. *)
Lemma sqrt_gt_int (n k : Z) :
  0 <= n < 2 ^ 53 -> 0 < k < 2 ^ 25 ->
  (SFsqrt prec emax (of_Z n) >? k)%flt = (k * k <? n).
Proof.
  intros Hn Hk. unfold gt_int.
  destruct (of_Z_scaled k (small_below_2_53 k Hk)) as [mk [ek [Hofk [Hdk [Hek Hvk]]]]].
  rewrite Hofk.
  destruct (Z.eq_dec n 0) as [->|Hn0].
  { replace (k * k <? 0) with false
      by (symmetry; apply Z.ltb_ge; apply Z.square_nonneg).
    reflexivity. }
  destruct (sqrt_scaled n) as
    [mr [er [q1 [T [U [q [r [Hs [Hdr [Her [HT [HU [HTU [Hval [HM [Hr [Hq [Hq1 Hex]]]]]]]]]]]]]]]]]];
    [lia|].
  rewrite Hs, (ltb_by_value mk mr ek er Hdk Hdr Hek Her), Hvk, Hval, <- HTU.
  assert (H26 : 2 ^ 26 = 2 * 2 ^ 25) by reflexivity.
  assert (HTk : 2 * k + 1 <= T) by lia.
  destruct (rounded_root_vs_constant n k T q r q1)
    as [Hgt [Hle _]]; try assumption; try lia.
  rewrite Z.mul_assoc.
  destruct (Z.ltb_spec (k * k) n) as [Hlt|Hge].
  - apply Z.ltb_lt. apply Z.mul_lt_mono_pos_r; [lia|auto].
  - apply Z.ltb_ge. apply Z.mul_le_mono_nonneg_r; [lia|auto].
Qed.

(** For the same integers, [math.sqrt(n) < k] holds exactly when
    [n < k * k]. *)
Lemma sqrt_lt_int (n k : Z) :
  0 <= n < 2 ^ 53 -> 0 < k < 2 ^ 25 ->
  (SFsqrt prec emax (of_Z n) <? k)%flt = (n <? k * k).
Proof.
  intros Hn Hk. unfold lt_int.
  destruct (of_Z_scaled k (small_below_2_53 k Hk)) as [mk [ek [Hofk [Hdk [Hek Hvk]]]]].
  rewrite Hofk.
  destruct (Z.eq_dec n 0) as [->|Hn0].
  { replace (0 <? k * k) with true
      by (symmetry; apply Z.ltb_lt; apply Z.mul_pos_pos; lia).
    reflexivity. }
  destruct (sqrt_scaled n) as
    [mr [er [q1 [T [U [q [r [Hs [Hdr [Her [HT [HU [HTU [Hval [HM [Hr [Hq [Hq1 Hex]]]]]]]]]]]]]]]]]];
    [lia|].
  rewrite Hs, (ltb_by_value mr mk er ek Hdr Hdk Her Hek), Hvk, Hval, <- HTU.
  assert (H26 : 2 ^ 26 = 2 * 2 ^ 25) by reflexivity.
  assert (HTk : 2 * k + 1 <= T) by lia.
  destruct (rounded_root_vs_constant n k T q r q1)
    as [_ [_ [Hlt' Hge']]]; try assumption; try lia.
  rewrite Z.mul_assoc.
  destruct (Z.ltb_spec n (k * k)) as [Hlt|Hge].
  - apply Z.ltb_lt. apply Z.mul_lt_mono_pos_r; [lia|auto].
  - apply Z.ltb_ge. apply Z.mul_le_mono_nonneg_r; [lia|auto].
Qed.

(** ** The pixel function over the integers *)

Lemma below_2_53_fits (n : Z) : n < 2 ^ 53 -> n < overflow_threshold.
Proof. intros H. apply Z.lt_trans with (1 := H). reflexivity. Qed.

Lemma small_constant (k : Z) : 0 < k <= 460 -> 0 < k < 2 ^ 25.
Proof. intros [H0 H1]. split; [assumption|]. apply Z.le_lt_trans with (1 := H1). reflexivity. Qed.

(** [icon] and its integer decision list agree below 2^53. *)
Lemma icon_regions_eq (atan2 : float -> float -> float) (x y : Z) :
  dist2 x y < 2 ^ 53 ->
  icon atan2 x y = icon_regions atan2 (Z.abs (x - 512)) (Z.abs (y - 512)).
Proof.
  intros Hn. pose proof (dist2_nonneg x y) as H0.
  rewrite (icon_of_radius atan2 x y _
             (math_sqrt_ok _ (conj H0 (below_2_53_fits _ Hn)))).
  unfold icon_body, icon_regions. fold (dist2 x y).
  rewrite !sqrt_gt_int, !sqrt_lt_int by (try apply small_constant; lia).
  reflexivity.
Qed.

(** X1.  Wherever the squared distance from the centre is below 2^53, the
    pixel function is the decision list over exact integer comparisons of
    the squared distance (r > k exactly when dx^2 + dy^2 > k^2, r < k exactly
    when dx^2 + dy^2 < k^2): rounding in [math.sqrt] never changes the band
    of a pixel. *)
Theorem icon_integer_geometry (atan2 : float -> float -> float) (x y : Z) :
  dist2 x y < 2 ^ 53 ->
  icon atan2 x y = icon_regions atan2 (Z.abs (x - 512)) (Z.abs (y - 512)).
Proof. exact (icon_regions_eq atan2 x y). Qed.

Lemma icon_integer_geometry_witness :
  icon (atan2_const S754_nan) 600 600 =
  icon_regions (atan2_const S754_nan) (Z.abs (600 - 512)) (Z.abs (600 - 512)).
Proof.
  apply (icon_integer_geometry (atan2_const S754_nan) 600 600).
  vm_compute. reflexivity.
Defined.

Ltac split_regions H :=
  repeat match type of H with
  | context [ if ?b then _ else _ ] => destruct b eqn:?
  | context [ bind ?m _ ] => destruct m; cbn [bind] in H
  end.

Lemma small_fits_2_53 (n : Z) : n <= 460 * 460 -> n < 2 ^ 53.
Proof. intros H. apply Z.le_lt_trans with (1 := H). reflexivity. Qed.

(** X2.  The pixel function returns the transparent colour (0,0,0,0) exactly
    at the coordinates whose squared distance from the centre exceeds 460^2:
    the opaque silhouette is the closed disc of radius 460. *)
Theorem icon_transparent_iff (atan2 : float -> float -> float) (x y : Z) :
  dist2 x y < 2 ^ 53 ->
  (icon atan2 x y = Ok [0; 0; 0; 0] <-> 460 * 460 < dist2 x y).
Proof.
  intros Hn. rewrite (icon_regions_eq atan2 x y Hn).
  unfold icon_regions. fold (dist2 x y). split.
  - intros H. destruct (Z.ltb_spec (460 * 460) (dist2 x y)) as [Hlt|Hge];
      [exact Hlt|exfalso].
    split_regions H; discriminate.
  - intros H. apply Z.ltb_lt in H. rewrite H. reflexivity.
Qed.

Lemma icon_transparent_iff_witness :
  icon (atan2_const S754_nan) 0 0 = Ok [0; 0; 0; 0] <-> 460 * 460 < dist2 0 0.
Proof.
  apply (icon_transparent_iff (atan2_const S754_nan) 0 0).
  vm_compute. reflexivity.
Defined.

(** X4.  The pixel function returns opaque black (0,0,0,255) exactly in the
    band where the squared distance is above 400^2 and at most 440^2. *)
Theorem icon_black_band_iff (atan2 : float -> float -> float) (x y : Z) :
  dist2 x y < 2 ^ 53 ->
  (icon atan2 x y = Ok [0; 0; 0; 255] <->
   400 * 400 < dist2 x y <= 440 * 440).
Proof.
  intros Hn. rewrite (icon_regions_eq atan2 x y Hn).
  unfold icon_regions. fold (dist2 x y). split.
  - intros H.
    destruct (Z.ltb_spec (460 * 460) (dist2 x y)); [discriminate|].
    destruct (Z.ltb_spec (440 * 440) (dist2 x y)); [discriminate|].
    destruct (Z.ltb_spec (400 * 400) (dist2 x y)); [lia|exfalso].
    split_regions H; discriminate.
  - intros [H1 H2].
    replace (460 * 460 <? dist2 x y) with false by (symmetry; apply Z.ltb_ge; lia).
    replace (440 * 440 <? dist2 x y) with false by (symmetry; apply Z.ltb_ge; lia).
    replace (400 * 400 <? dist2 x y) with true by (symmetry; apply Z.ltb_lt; lia).
    reflexivity.
Qed.

Lemma icon_black_band_iff_witness :
  icon (atan2_const S754_nan) 932 512 = Ok [0; 0; 0; 255] <->
  400 * 400 < dist2 932 512 <= 440 * 440.
Proof.
  apply (icon_black_band_iff (atan2_const S754_nan) 932 512).
  vm_compute. reflexivity.
Defined.

(** X3.  Every pixel whose squared distance from the centre is above 440^2
    and at most 460^2 has the blue-grey ring colour (102,136,204,255). *)
Theorem icon_outer_ring (atan2 : float -> float -> float) (x y : Z) :
  440 * 440 < dist2 x y <= 460 * 460 ->
  icon atan2 x y = Ok [102; 136; 204; 255].
Proof.
  intros [H1 H2].
  rewrite (icon_regions_eq atan2 x y (small_fits_2_53 _ H2)).
  unfold icon_regions. fold (dist2 x y).
  replace (460 * 460 <? dist2 x y) with false by (symmetry; apply Z.ltb_ge; lia).
  replace (440 * 440 <? dist2 x y) with true by (symmetry; apply Z.ltb_lt; lia).
  reflexivity.
Qed.

Lemma icon_outer_ring_witness :
  icon (atan2_const S754_nan) 962 512 = Ok [102; 136; 204; 255].
Proof.
  apply (icon_outer_ring (atan2_const S754_nan) 962 512).
  unfold dist2. lia.
Defined.

(** X5.  The whole horizontal bar is amber: every pixel with |y - 512| < 60
    and |x - 512| < 350 gets (255,153,0,255); such a pixel is never in the
    outer bands. *)
Theorem icon_amber_bar (atan2 : float -> float -> float) (x y : Z) :
  Z.abs (y - 512) < 60 -> Z.abs (x - 512) < 350 ->
  icon atan2 x y = Ok [255; 153; 0; 255].
Proof.
  intros Hy Hx.
  assert (Hn : dist2 x y <= 400 * 400) by (unfold dist2; nia).
  rewrite (icon_regions_eq atan2 x y) by (apply small_fits_2_53; lia).
  unfold icon_regions. fold (dist2 x y).
  replace (460 * 460 <? dist2 x y) with false by (symmetry; apply Z.ltb_ge; lia).
  replace (440 * 440 <? dist2 x y) with false by (symmetry; apply Z.ltb_ge; lia).
  replace (400 * 400 <? dist2 x y) with false by (symmetry; apply Z.ltb_ge; lia).
  replace (Z.abs (y - 512) <? 60) with true by (symmetry; apply Z.ltb_lt; lia).
  replace (Z.abs (x - 512) <? 350) with true by (symmetry; apply Z.ltb_lt; lia).
  reflexivity.
Qed.

Lemma icon_amber_bar_witness :
  icon (atan2_const S754_nan) 800 540 = Ok [255; 153; 0; 255].
Proof.
  apply (icon_amber_bar (atan2_const S754_nan) 800 540); lia.
Defined.

(** X6.  The vertical bar outside the horizontal one is teal: every pixel
    with |x - 512| < 60 and 60 <= |y - 512| < 350 gets (102,204,204,255). *)
Theorem icon_teal_bar (atan2 : float -> float -> float) (x y : Z) :
  Z.abs (x - 512) < 60 -> 60 <= Z.abs (y - 512) < 350 ->
  icon atan2 x y = Ok [102; 204; 204; 255].
Proof.
  intros Hx Hy.
  assert (Hn : dist2 x y <= 400 * 400) by (unfold dist2; nia).
  rewrite (icon_regions_eq atan2 x y) by (apply small_fits_2_53; lia).
  unfold icon_regions. fold (dist2 x y).
  replace (460 * 460 <? dist2 x y) with false by (symmetry; apply Z.ltb_ge; lia).
  replace (440 * 440 <? dist2 x y) with false by (symmetry; apply Z.ltb_ge; lia).
  replace (400 * 400 <? dist2 x y) with false by (symmetry; apply Z.ltb_ge; lia).
  replace (Z.abs (y - 512) <? 60) with false by (symmetry; apply Z.ltb_ge; lia).
  replace (Z.abs (x - 512) <? 60) with true by (symmetry; apply Z.ltb_lt; lia).
  replace (Z.abs (y - 512) <? 350) with true by (symmetry; apply Z.ltb_lt; lia).
  reflexivity.
Qed.

Lemma icon_teal_bar_witness :
  icon (atan2_const S754_nan) 540 800 = Ok [102; 204; 204; 255].
Proof.
  apply (icon_teal_bar (atan2_const S754_nan) 540 800); lia.
Defined.

(** X7.  The light-blue colour (153,204,255,255) of the centre disc is
    returned exactly where the squared distance is below 120^2 and both
    offsets from the centre are at least 60: only the parts of the disc
    between the cross bars show. *)
Theorem icon_center_disc_iff (atan2 : float -> float -> float) (x y : Z) :
  dist2 x y < 2 ^ 53 ->
  (icon atan2 x y = Ok [153; 204; 255; 255] <->
   60 <= Z.abs (x - 512) /\ 60 <= Z.abs (y - 512) /\ dist2 x y < 120 * 120).
Proof.
  intros Hn. rewrite (icon_regions_eq atan2 x y Hn).
  unfold icon_regions. fold (dist2 x y). split.
  - intros H. split_regions H; try discriminate;
      repeat match goal with
      | E : (_ <? _) = true |- _ => apply Z.ltb_lt in E
      | E : (_ <? _) = false |- _ => apply Z.ltb_ge in E
      | E : _ && _ = true |- _ => apply andb_true_iff in E; destruct E
      | E : _ && _ = false |- _ => apply andb_false_iff in E
      end; unfold dist2 in *; (repeat split; nia).
  - intros [Hx [Hy Hd]].
    replace (460 * 460 <? dist2 x y) with false by (symmetry; apply Z.ltb_ge; lia).
    replace (440 * 440 <? dist2 x y) with false by (symmetry; apply Z.ltb_ge; lia).
    replace (400 * 400 <? dist2 x y) with false by (symmetry; apply Z.ltb_ge; lia).
    replace (Z.abs (y - 512) <? 60) with false by (symmetry; apply Z.ltb_ge; lia).
    replace (Z.abs (x - 512) <? 60) with false by (symmetry; apply Z.ltb_ge; lia).
    replace (300 * 300 <? dist2 x y) with false by (symmetry; apply Z.ltb_ge; lia).
    replace (dist2 x y <? 120 * 120) with true by (symmetry; apply Z.ltb_lt; lia).
    reflexivity.
Qed.

Lemma icon_center_disc_iff_witness :
  icon (atan2_const S754_nan) 580 590 = Ok [153; 204; 255; 255] <->
  60 <= Z.abs (580 - 512) /\ 60 <= Z.abs (590 - 512) /\ dist2 580 590 < 120 * 120.
Proof.
  apply (icon_center_disc_iff (atan2_const S754_nan) 580 590).
  vm_compute. reflexivity.
Defined.

(** X8.  Where the inner-arc rule is reached (300 < r < 340, outside both
    cross bars), both offsets from the centre lie in [60, 340): [atan2] is
    only ever asked about points whose offsets are within a factor of six
    of each other. *)
Theorem arc_band_offsets (x y : Z) (r : float) :
  dist2 x y < 2 ^ 53 ->
  math_sqrt (dist2 x y) = Ok r ->
  (r >? 300)%flt = true -> (r <? 340)%flt = true ->
  ~ (Z.abs (y - 512) < 60 /\ Z.abs (x - 512) < 350) ->
  ~ (Z.abs (x - 512) < 60 /\ Z.abs (y - 512) < 350) ->
  60 <= Z.abs (x - 512) < 340 /\ 60 <= Z.abs (y - 512) < 340.
Proof.
  intros Hn Hr H300 H340 Hamber Hteal.
  pose proof (dist2_nonneg x y) as H0.
  rewrite (math_sqrt_ok _ (conj H0 (below_2_53_fits _ Hn))) in Hr.
  injection Hr as <-.
  rewrite sqrt_gt_int in H300 by (try apply small_constant; lia).
  rewrite sqrt_lt_int in H340 by (try apply small_constant; lia).
  apply Z.ltb_lt in H300, H340. unfold dist2 in *.
  assert (Z.abs (x - 512) < 340) by nia.
  assert (Z.abs (y - 512) < 340) by nia.
  lia.
Qed.

Lemma arc_band_offsets_witness :
  60 <= Z.abs (712 - 512) < 340 /\ 60 <= Z.abs (762 - 512) < 340.
Proof.
  apply (arc_band_offsets 712 762 (SFsqrt prec emax (of_Z 102500))).
  - vm_compute. reflexivity.
  - vm_compute. reflexivity.
  - vm_compute. reflexivity.
  - vm_compute. reflexivity.
  - lia.
  - lia.
Defined.

(** * More on the encoder *)

(** ** What a result of the encoder implies *)

Lemma bind_ok_inv {A B : Type} (m : result A) (k : A -> result B) (b : B) :
  bind m k = Ok b -> exists a, m = Ok a /\ k a = Ok b.
Proof. destruct m as [a|e]; [|discriminate]. intros H. exists a. auto. Qed.

Lemma byte_of_int_inv (v : Z) (b : byte) :
  byte_of_int v = Ok b -> 0 <= v < 256.
Proof.
  unfold byte_of_int. destruct ((0 <=? v) && (v <? 256)) eqn:E; [|discriminate].
  intros _. apply andb_true_iff in E. destruct E as [E1 E2].
  apply Z.leb_le in E1. apply Z.ltb_lt in E2. lia.
Qed.

Lemma bytes_of_ints_inv (t : list Z) :
  forall b, bytes_of_ints t = Ok b -> Forall (fun v => 0 <= v < 256) t.
Proof.
  induction t as [|v t IH]; intros b H; [constructor|].
  cbn [bytes_of_ints] in H.
  apply bind_ok_inv in H. destruct H as [b0 [Hv H]].
  apply bind_ok_inv in H. destruct H as [bs [Ht _]].
  constructor; [exact (byte_of_int_inv v b0 Hv)|exact (IH bs Ht)].
Qed.

Lemma row_loop_inv (pixels : Z -> Z -> result (list Z)) (y : Z) (xs : list Z) :
  forall raw raw', row_loop pixels y xs raw = Ok raw' ->
  forall x, In x xs ->
    exists t, pixels x y = Ok t /\ Forall (fun v => 0 <= v < 256) t.
Proof.
  induction xs as [|x0 xs IH]; intros raw raw' H x Hx; [destruct Hx|].
  cbn [row_loop] in H.
  apply bind_ok_inv in H. destruct H as [t [Ht H]].
  apply bind_ok_inv in H. destruct H as [b [Hb H]].
  destruct Hx as [<-|Hx].
  - exists t. split; [exact Ht|exact (bytes_of_ints_inv t b Hb)].
  - exact (IH _ _ H x Hx).
Qed.

Lemma image_loop_inv
  (pixels : Z -> Z -> result (list Z)) (width : Z) (ys : list Z) :
  forall raw raw', image_loop pixels width ys raw = Ok raw' ->
  forall x y, In x (range width) -> In y ys ->
    exists t, pixels x y = Ok t /\ Forall (fun v => 0 <= v < 256) t.
Proof.
  induction ys as [|y0 ys IH]; intros raw raw' H x y Hx Hy; [destruct Hy|].
  cbn [image_loop] in H.
  apply bind_ok_inv in H. destruct H as [raw1 [Hrow H]].
  destruct Hy as [<-|Hy].
  - exact (row_loop_inv pixels y0 _ _ _ Hrow x Hx).
  - exact (IH _ _ H x y Hx Hy).
Qed.

Lemma pack_I_inv (n : Z) (b : bytes) : pack_I n = Ok b -> 0 <= n < 2 ^ 32.
Proof.
  unfold pack_I. destruct ((0 <=? n) && (n <? 2 ^ 32)) eqn:E; [|discriminate].
  intros _. apply andb_true_iff in E. destruct E as [E1 E2].
  apply Z.leb_le in E1. apply Z.ltb_lt in E2. lia.
Qed.

Lemma pack_I_raises (n : Z) : ~ 0 <= n < 2 ^ 32 -> pack_I n = Raise StructError.
Proof.
  intros H. unfold pack_I.
  destruct ((0 <=? n) && (n <? 2 ^ 32)) eqn:E; [|reflexivity].
  apply andb_true_iff in E. destruct E as [E1 E2].
  apply Z.leb_le in E1. apply Z.ltb_lt in E2. lia.
Qed.

(** X10.  [create_png] returns bytes only if the width and the height are in
    [0, 2^32) and the pixel function returned, at every coordinate of the
    canvas, a tuple of integers in [0, 256). *)
Theorem create_png_ok_requires
  (crc32 : bytes -> Z) (compress : bytes -> bytes)
  (pixels : Z -> Z -> result (list Z)) (width height : Z) (png : bytes) :
  create_png crc32 compress pixels width height = Ok png ->
  0 <= width < 2 ^ 32 /\ 0 <= height < 2 ^ 32 /\
  forall x y, 0 <= x < width -> 0 <= y < height ->
    exists t, pixels x y = Ok t /\ Forall (fun v => 0 <= v < 256) t.
Proof.
  unfold create_png. intros H.
  apply bind_ok_inv in H. destruct H as [raw [Hraw H]].
  apply bind_ok_inv in H. destruct H as [hdr [Hhdr _]].
  unfold pack_IIBBBBB in Hhdr.
  apply bind_ok_inv in Hhdr. destruct Hhdr as [bw [Hw Hhdr]].
  apply bind_ok_inv in Hhdr. destruct Hhdr as [bh [Hh _]].
  split; [exact (pack_I_inv _ _ Hw)|]. split; [exact (pack_I_inv _ _ Hh)|].
  intros x y Hx Hy.
  apply (image_loop_inv pixels width (range height) [] raw Hraw x y);
    apply in_range; assumption.
Qed.

Lemma create_png_ok_requires_witness :
  0 <= 4 < 2 ^ 32 /\ 0 <= 4 < 2 ^ 32 /\
  forall x y, 0 <= x < 4 -> 0 <= y < 4 ->
    exists t, constant_pixel [1; 2; 3; 4] x y = Ok t /\
              Forall (fun v => 0 <= v < 256) t.
Proof.
  destruct (create_png_shape Zlib.crc32 Zlib.compress
              (constant_pixel [1; 2; 3; 4]) 4 4 four_by_four) as [Hpng _].
  - lia.
  - lia.
  - vm_compute. reflexivity.
  - vm_compute. reflexivity.
  - exact (create_png_ok_requires Zlib.crc32 Zlib.compress
             (constant_pixel [1; 2; 3; 4]) 4 4 _ Hpng).
Defined.

(** ** Canvases without pixels *)

Lemma range_nonpositive (n : Z) : n <= 0 -> range n = [].
Proof.
  intros H. unfold range. replace (Z.to_nat n) with 0%nat by lia. reflexivity.
Qed.

Lemma image_loop_no_columns
  (pixels : Z -> Z -> result (list Z)) (width : Z) (ys : list Z) :
  width <= 0 ->
  forall raw, image_loop pixels width ys raw = Ok (raw ++ repeat x00 (length ys)).
Proof.
  intros Hw. induction ys as [|y ys IH]; intros raw.
  - simpl. rewrite app_nil_r. reflexivity.
  - cbn [image_loop]. rewrite (range_nonpositive width Hw). cbn [row_loop bind].
    rewrite IH, <- app_assoc. reflexivity.
Qed.

(** Without columns or without rows the loops only write filter bytes. *)
Lemma raw_scanlines_filter_bytes
  (pixels : Z -> Z -> result (list Z)) (width height : Z) :
  width <= 0 \/ height <= 0 ->
  raw_scanlines pixels width height = Ok (repeat x00 (Z.to_nat height)).
Proof.
  intros [Hw|Hh]; unfold raw_scanlines.
  - rewrite (image_loop_no_columns pixels width _ Hw).
    unfold range. rewrite length_map, length_seq. reflexivity.
  - rewrite (range_nonpositive height Hh).
    replace (Z.to_nat height) with 0%nat by lia. reflexivity.
Qed.

(** X12.  When the width or the height is not positive the pixel function is
    never called: the buffer is one filter byte per row, max(height, 0)
    bytes in all. *)
Theorem raw_scanlines_no_pixels
  (pixels : Z -> Z -> result (list Z)) (width height : Z) :
  width <= 0 \/ height <= 0 ->
  raw_scanlines pixels width height = Ok (repeat x00 (Z.to_nat height)).
Proof. exact (raw_scanlines_filter_bytes pixels width height). Qed.

Lemma raw_scanlines_no_pixels_witness :
  raw_scanlines (fun _ _ => Raise ValueError) 0 3 = Ok [x00; x00; x00].
Proof.
  apply (raw_scanlines_no_pixels (fun _ _ => Raise ValueError) 0 3).
  left. lia.
Defined.

(** X11.  With a negative width [create_png] raises [struct.error], whatever
    the height and the pixel function are. *)
Theorem create_png_negative_width
  (crc32 : bytes -> Z) (compress : bytes -> bytes)
  (pixels : Z -> Z -> result (list Z)) (width height : Z) :
  width < 0 ->
  create_png crc32 compress pixels width height = Raise StructError.
Proof.
  intros Hw. unfold create_png.
  rewrite (raw_scanlines_filter_bytes pixels width height) by (left; lia).
  cbn [bind]. unfold pack_IIBBBBB.
  rewrite (pack_I_raises width) by lia. reflexivity.
Qed.

Lemma create_png_negative_width_witness :
  create_png Zlib.crc32 Zlib.compress (fun _ _ => Raise ValueError) (-1) 2 =
  Raise StructError.
Proof.
  apply (create_png_negative_width Zlib.crc32 Zlib.compress
           (fun _ _ => Raise ValueError) (-1) 2).
  lia.
Defined.

(** ** Tuples of any length *)

Lemma tuple_bytes_ok (k : nat) (pixels : Z -> Z -> result (list Z)) (x y : Z) :
  tuple_ok k pixels x y ->
  exists t, pixels x y = Ok t /\
            bytes_of_ints t = Ok (Spec.pixel_bytes pixels x y) /\
            length (Spec.pixel_bytes pixels x y) = k.
Proof.
  intros [t [Ht [Hlen Hrange]]]. exists t. unfold Spec.pixel_bytes.
  rewrite Ht. split; [reflexivity|]. split.
  - apply bytes_of_ints_ok, Hrange.
  - rewrite length_map. exact Hlen.
Qed.

Lemma row_loop_tuples
  (k : nat) (pixels : Z -> Z -> result (list Z)) (y : Z) (xs : list Z) :
  (forall x, In x xs -> tuple_ok k pixels x y) ->
  forall raw,
    row_loop pixels y xs raw =
    Ok (raw ++ concat (map (fun x => Spec.pixel_bytes pixels x y) xs)).
Proof.
  induction xs as [|x xs IH]; intros Hok raw.
  - simpl. rewrite app_nil_r. reflexivity.
  - destruct (tuple_bytes_ok k pixels x y (Hok x (or_introl eq_refl)))
      as [t [Ht [Hb _]]].
    cbn [row_loop map concat]. rewrite Ht. cbn [bind]. rewrite Hb. cbn [bind].
    rewrite IH by (intros x' Hx'; apply Hok; now right).
    rewrite <- app_assoc. reflexivity.
Qed.

Lemma image_loop_tuples
  (k : nat) (pixels : Z -> Z -> result (list Z)) (width : Z) (ys : list Z) :
  (forall x y, In x (range width) -> In y ys -> tuple_ok k pixels x y) ->
  forall raw,
    image_loop pixels width ys raw =
    Ok (raw ++ concat (map (Spec.scanline pixels width) ys)).
Proof.
  induction ys as [|y ys IH]; intros Hok raw.
  - simpl. rewrite app_nil_r. reflexivity.
  - cbn [image_loop map concat].
    rewrite (row_loop_tuples k)
      by (intros x Hx; apply Hok; [assumption|now left]).
    cbn [bind].
    rewrite IH by (intros x y' Hx Hy'; apply Hok; [assumption|now right]).
    unfold Spec.scanline. rewrite <- !app_assoc. reflexivity.
Qed.

(** X13.  The encoder does not check the length of the tuples: when every
    pixel is a k-tuple of bytes, the buffer is the concatenation of the
    scanlines and has H * (1 + W * k) bytes. *)
Theorem raw_scanlines_any_arity
  (k : nat) (pixels : Z -> Z -> result (list Z)) (width height : Z) :
  0 <= width -> 0 <= height ->
  (forall x y, 0 <= x < width -> 0 <= y < height -> tuple_ok k pixels x y) ->
  raw_scanlines pixels width height = Ok (Spec.raw_buffer pixels width height) /\
  Z.of_nat (length (Spec.raw_buffer pixels width height)) =
    height * (1 + width * Z.of_nat k).
Proof.
  intros Hw Hh Hok. split.
  - unfold raw_scanlines. rewrite (image_loop_tuples k); [reflexivity|].
    intros x y Hx Hy. apply in_range in Hx, Hy. now apply Hok.
  - unfold Spec.raw_buffer.
    rewrite (concat_length_const (B:=byte) (Spec.scanline pixels width)
               (S (length (range width) * k))).
    + rewrite Nat2Z.inj_mul, range_length by lia.
      rewrite Nat2Z.inj_succ, Nat2Z.inj_mul, range_length by lia. lia.
    + intros y Hy. apply in_range in Hy. unfold Spec.scanline. cbn [length].
      f_equal.
      apply (concat_length_const (B:=byte)
               (fun x => Spec.pixel_bytes pixels x y) k).
      intros x Hx. apply in_range in Hx.
      destruct (tuple_bytes_ok k pixels x y (Hok x y Hx Hy)) as [_ [_ [_ H]]].
      exact H.
Qed.

Lemma raw_scanlines_any_arity_witness :
  raw_scanlines (constant_pixel [9; 8; 7]) 2 2 =
    Ok (Spec.raw_buffer (constant_pixel [9; 8; 7]) 2 2) /\
  Z.of_nat (length (Spec.raw_buffer (constant_pixel [9; 8; 7]) 2 2)) =
    2 * (1 + 2 * Z.of_nat 3).
Proof.
  apply (raw_scanlines_any_arity 3 (constant_pixel [9; 8; 7]) 2 2).
  - lia.
  - lia.
  - intros x y _ _. exists [9; 8; 7]. split; [reflexivity|].
    split; [reflexivity|]. repeat constructor; lia.
Defined.

(** ** Size of the file and reading it back *)

Lemma chunk_ok_inv (crc32 : bytes -> Z) (t d c : bytes) :
  chunk crc32 t d = Ok c ->
  Z.of_nat (length d) < 2 ^ 32 /\ c = Spec.chunk_bytes crc32 t d.
Proof.
  intros H. destruct (Z.lt_ge_cases (Z.of_nat (length d)) (2 ^ 32)) as [Hlt|Hge].
  - rewrite (chunk_ok crc32 t d Hlt) in H. injection H as <-. auto.
  - rewrite (chunk_too_long crc32 t d Hge) in H. discriminate.
Qed.

Lemma create_png_ok_inv
  (crc32 : bytes -> Z) (compress : bytes -> bytes)
  (pixels : Z -> Z -> result (list Z)) (width height : Z) (png : bytes) :
  create_png crc32 compress pixels width height = Ok png ->
  exists raw,
    raw_scanlines pixels width height = Ok raw /\
    0 <= width < 2 ^ 32 /\ 0 <= height < 2 ^ 32 /\
    Z.of_nat (length (compress raw)) < 2 ^ 32 /\
    png = png_signature
          ++ Spec.chunk_bytes crc32 IHDR (Spec.header_payload width height)
          ++ Spec.chunk_bytes crc32 IDAT (compress raw)
          ++ Spec.chunk_bytes crc32 IEND [].
Proof.
  intros H. pose proof H as H'. unfold create_png in H'.
  apply bind_ok_inv in H'. destruct H' as [raw [Hraw H']].
  apply bind_ok_inv in H'. destruct H' as [hdr [Hhdr H']].
  apply bind_ok_inv in H'. destruct H' as [c1 [_ H']].
  apply bind_ok_inv in H'. destruct H' as [c2 [H2 _]].
  unfold pack_IIBBBBB in Hhdr.
  apply bind_ok_inv in Hhdr. destruct Hhdr as [bw [Hw Hhdr]].
  apply bind_ok_inv in Hhdr. destruct Hhdr as [bh [Hh _]].
  pose proof (pack_I_inv _ _ Hw) as Rw. pose proof (pack_I_inv _ _ Hh) as Rh.
  destruct (chunk_ok_inv crc32 _ _ _ H2) as [Hz _].
  exists raw. split; [exact Hraw|]. split; [exact Rw|]. split; [exact Rh|].
  split; [exact Hz|].
  destruct (create_png_shape crc32 compress pixels width height raw Rw Rh Hraw Hz)
    as [Hshape _].
  rewrite Hshape in H. injection H as <-. reflexivity.
Qed.

(** X14.  The file produced by [create_png] is 57 bytes longer than the
    compressed scanline buffer. *)
Theorem create_png_length
  (crc32 : bytes -> Z) (compress : bytes -> bytes)
  (pixels : Z -> Z -> result (list Z)) (width height : Z) (raw png : bytes) :
  raw_scanlines pixels width height = Ok raw ->
  create_png crc32 compress pixels width height = Ok png ->
  length png = (57 + length (compress raw))%nat.
Proof.
  intros Hraw Hpng.
  destruct (create_png_ok_inv crc32 compress pixels width height png Hpng)
    as [raw' [Hraw' [_ [_ [_ ->]]]]].
  rewrite Hraw in Hraw'. injection Hraw' as <-.
  rewrite !length_app, !chunk_bytes_length.
  change (length png_signature) with 8%nat.
  change (length IHDR) with 4%nat. change (length IDAT) with 4%nat.
  change (length IEND) with 4%nat.
  change (length (Spec.header_payload width height)) with 13%nat.
  change (length (@nil byte)) with 0%nat. lia.
Qed.

Lemma create_png_length_witness :
  exists png,
    create_png Zlib.crc32 Zlib.compress (constant_pixel [1; 2; 3; 4]) 4 4 = Ok png /\
    length png = (57 + length (Zlib.compress four_by_four))%nat.
Proof.
  destruct (create_png_shape Zlib.crc32 Zlib.compress
              (constant_pixel [1; 2; 3; 4]) 4 4 four_by_four) as [Hpng _].
  - lia.
  - lia.
  - vm_compute. reflexivity.
  - vm_compute. reflexivity.
  - eexists. split; [exact Hpng|].
    apply (create_png_length Zlib.crc32 Zlib.compress
             (constant_pixel [1; 2; 3; 4]) 4 4 four_by_four _).
    + vm_compute. reflexivity.
    + exact Hpng.
Defined.

Lemma firstn_app_exact {A : Type} (a b : list A) : firstn (length a) (a ++ b) = a.
Proof. induction a as [|x a IH]; [reflexivity|]. simpl. now rewrite IH. Qed.

Lemma skipn_app_exact {A : Type} (a b : list A) : skipn (length a) (a ++ b) = b.
Proof. induction a as [|x a IH]; [reflexivity|]. exact IH. Qed.

(** X15.  Reading a produced file back gives exactly the chunks IHDR, IDAT
    and IEND, each with a valid checksum, and the IHDR payload gives back
    the width and the height, followed by the bytes 8, 6, 0, 0, 0. *)
Theorem read_png_recovers_header
  (crc32 : bytes -> Z) (compress : bytes -> bytes)
  (pixels : Z -> Z -> result (list Z)) (width height : Z) (png : bytes) :
  (forall c, 0 <= crc32 c < 2 ^ 32) ->
  create_png crc32 compress pixels width height = Ok png ->
  exists hdr z crc1 crc2 crc3,
    Spec.read_png crc32 png =
      Some [ {| Spec.ctype := IHDR; Spec.payload := hdr; Spec.stored_crc := crc1 |};
             {| Spec.ctype := IDAT; Spec.payload := z; Spec.stored_crc := crc2 |};
             {| Spec.ctype := IEND; Spec.payload := []; Spec.stored_crc := crc3 |} ] /\
    Spec.int_of_be (firstn 4 hdr) = width /\
    Spec.int_of_be (firstn 4 (skipn 4 hdr)) = height /\
    skipn 8 hdr = [x08; x06; x00; x00; x00].
Proof.
  intros Hcrc Hpng.
  destruct (create_png_ok_inv crc32 compress pixels width height png Hpng)
    as [raw [_ [Hw [Hh [Hz ->]]]]].
  eexists. eexists. eexists. eexists. eexists. split.
  - apply (read_png_create_png crc32 _ (compress raw) Hcrc); [|exact Hz].
    cbv. reflexivity.
  - unfold Spec.header_payload.
    change 4%nat with (length (be32 width)) at 1.
    rewrite firstn_app_exact, int_of_be_be32 by exact Hw.
    split; [reflexivity|].
    change 4%nat with (length (be32 width)) at 2.
    rewrite skipn_app_exact.
    change 4%nat with (length (be32 height)) at 1.
    rewrite firstn_app_exact, int_of_be_be32 by exact Hh.
    split; [reflexivity|].
    change 8%nat with (length (be32 width ++ be32 height)).
    rewrite app_assoc, skipn_app_exact. reflexivity.
Qed.

Lemma read_png_recovers_header_witness :
  exists hdr z crc1 crc2 crc3,
    Spec.read_png Zlib.crc32
      (png_signature
       ++ Spec.chunk_bytes Zlib.crc32 IHDR (Spec.header_payload 4 4)
       ++ Spec.chunk_bytes Zlib.crc32 IDAT (Zlib.compress four_by_four)
       ++ Spec.chunk_bytes Zlib.crc32 IEND []) =
      Some [ {| Spec.ctype := IHDR; Spec.payload := hdr; Spec.stored_crc := crc1 |};
             {| Spec.ctype := IDAT; Spec.payload := z; Spec.stored_crc := crc2 |};
             {| Spec.ctype := IEND; Spec.payload := []; Spec.stored_crc := crc3 |} ] /\
    Spec.int_of_be (firstn 4 hdr) = 4 /\
    Spec.int_of_be (firstn 4 (skipn 4 hdr)) = 4 /\
    skipn 8 hdr = [x08; x06; x00; x00; x00].
Proof.
  destruct (create_png_shape Zlib.crc32 Zlib.compress
              (constant_pixel [1; 2; 3; 4]) 4 4 four_by_four) as [Hpng _].
  - lia.
  - lia.
  - vm_compute. reflexivity.
  - vm_compute. reflexivity.
  - exact (read_png_recovers_header Zlib.crc32 Zlib.compress
             (constant_pixel [1; 2; 3; 4]) 4 4 _ crc32_range Hpng).
Defined.

(** ** Chunks in a stream *)

Lemma app_eq_length_inv {A : Type} (a a' b b' : list A) :
  length a = length a' -> a ++ b = a' ++ b' -> a = a' /\ b = b'.
Proof.
  revert a'. induction a as [|x a IH]; intros [|x' a'] Hlen H; try discriminate.
  - auto.
  - injection H as -> H. injection Hlen as Hlen.
    destruct (IH a' Hlen H) as [-> ->]. auto.
Qed.

(** X16.  Chunks can be told apart in a stream: if a chunk followed by some
    bytes equals another chunk followed by some bytes, the two chunks have
    the same type tag and payload and the followers are equal. *)
Theorem chunk_stream_unique
  (crc32 : bytes -> Z) (t d t' d' c c' rest rest' : bytes) :
  length t = 4%nat -> length t' = 4%nat ->
  chunk crc32 t d = Ok c -> chunk crc32 t' d' = Ok c' ->
  c ++ rest = c' ++ rest' ->
  t = t' /\ d = d' /\ rest = rest'.
Proof.
  intros Ht Ht' Hc Hc' H.
  destruct (chunk_ok_inv crc32 t d c Hc) as [Hd ->].
  destruct (chunk_ok_inv crc32 t' d' c' Hc') as [Hd' ->].
  unfold Spec.chunk_bytes in H. rewrite <- !app_assoc in H.
  apply app_eq_length_inv in H; [|reflexivity]. destruct H as [Hlen H].
  apply (f_equal Spec.int_of_be) in Hlen.
  rewrite !int_of_be_be32 in Hlen by lia. apply Nat2Z.inj in Hlen.
  apply app_eq_length_inv in H; [|congruence]. destruct H as [-> H].
  apply app_eq_length_inv in H; [|exact Hlen]. destruct H as [-> H].
  apply app_eq_length_inv in H; [|reflexivity]. destruct H as [_ ->].
  auto.
Qed.

Lemma chunk_stream_unique_witness :
  IEND = IEND /\ @nil byte = [] /\ [x00] = [x00].
Proof.
  apply (chunk_stream_unique Zlib.crc32 IEND [] IEND []
           (Spec.chunk_bytes Zlib.crc32 IEND [])
           (Spec.chunk_bytes Zlib.crc32 IEND []) [x00] [x00]).
  - reflexivity.
  - reflexivity.
  - apply chunk_ok. vm_compute. reflexivity.
  - apply chunk_ok. vm_compute. reflexivity.
  - reflexivity.
Defined.

(** X17.  [chunk] raises exactly when the payload has 2^32 bytes or more, and
    then [struct.error]; the mask on the checksum keeps [zlib.crc32] from
    ever making it fail. *)
Theorem chunk_raises_iff (crc32 : bytes -> Z) (t d : bytes) (e : exn) :
  chunk crc32 t d = Raise e <->
  e = StructError /\ 2 ^ 32 <= Z.of_nat (length d).
Proof.
  split.
  - intros H. destruct (Z.lt_ge_cases (Z.of_nat (length d)) (2 ^ 32)) as [Hlt|Hge].
    + rewrite (chunk_ok crc32 t d Hlt) in H. discriminate.
    + rewrite (chunk_too_long crc32 t d Hge) in H. injection H as <-. auto.
  - intros [-> Hge]. exact (chunk_too_long crc32 t d Hge).
Qed.

(** ** Rows of the buffer *)

Lemma bind_ok_r {A : Type} (m : result A) : bind m (fun a => Ok a) = m.
Proof. destruct m; reflexivity. Qed.

Lemma image_loop_app
  (pixels : Z -> Z -> result (list Z)) (width : Z) (ys zs : list Z) :
  forall raw,
    image_loop pixels width (ys ++ zs) raw =
    bind (image_loop pixels width ys raw) (image_loop pixels width zs).
Proof.
  induction ys as [|y ys IH]; intros raw; [reflexivity|].
  cbn [app image_loop].
  destruct (row_loop pixels y (range width) (raw ++ [x00])) as [raw1|e];
    [|reflexivity].
  cbn [bind]. apply IH.
Qed.

Lemma range_succ (n : Z) : 0 <= n -> range (n + 1) = range n ++ [n].
Proof.
  intros H. unfold range.
  replace (Z.to_nat (n + 1)) with (Z.to_nat n + 1)%nat by lia.
  rewrite seq_app, map_app. cbn [seq map]. rewrite Nat.add_0_l, Z2Nat.id by lia.
  reflexivity.
Qed.

(** X18.  The buffer of a canvas with one more row is the buffer of the
    canvas followed by the filter byte and the pixels of the new row, and it
    raises what either part raises. *)
Theorem raw_scanlines_next_row
  (pixels : Z -> Z -> result (list Z)) (width height : Z) :
  0 <= height ->
  raw_scanlines pixels width (height + 1) =
  bind (raw_scanlines pixels width height)
       (fun raw => row_loop pixels height (range width) (raw ++ [x00])).
Proof.
  intros H. unfold raw_scanlines.
  rewrite (range_succ height H), image_loop_app.
  destruct (image_loop pixels width (range height) []) as [raw|e]; [|reflexivity].
  cbn [bind image_loop]. apply bind_ok_r.
Qed.

Lemma raw_scanlines_next_row_witness :
  raw_scanlines (constant_pixel [1; 2; 3; 4]) 4 (3 + 1) =
  bind (raw_scanlines (constant_pixel [1; 2; 3; 4]) 4 3)
       (fun raw => row_loop (constant_pixel [1; 2; 3; 4]) 3 (range 4) (raw ++ [x00])).
Proof.
  apply (raw_scanlines_next_row (constant_pixel [1; 2; 3; 4]) 4 3). lia.
Defined.

(** ** Where a pixel lies in the buffer *)

Lemma range_split (k n : Z) :
  0 <= k < n -> exists tl, range n = range k ++ k :: tl.
Proof.
  intros H. unfold range.
  replace (Z.to_nat n)
    with (Z.to_nat k + S (Z.to_nat n - Z.to_nat k - 1))%nat by lia.
  rewrite seq_app, map_app. cbn [seq map]. rewrite Nat.add_0_l, Z2Nat.id by lia.
  eexists. reflexivity.
Qed.

Lemma skipn_app_plus {A : Type} (a b : list A) (j : nat) :
  skipn (length a + j) (a ++ b) = skipn j b.
Proof. induction a as [|x a IH]; [reflexivity|]. exact IH. Qed.

Lemma nth_error_app_exact {A : Type} (a b : list A) :
  nth_error (a ++ b) (length a) = nth_error b 0.
Proof. induction a as [|x a IH]; [reflexivity|]. exact IH. Qed.

(** X19.  In the buffer of a W x H canvas of 4-tuples, row y starts at offset
    y * (1 + 4 W) with the filter byte 0x00, and the four bytes of pixel
    (x, y) are at offset y * (1 + 4 W) + 1 + 4 x. *)
Theorem raw_buffer_pixel_at
  (pixels : Z -> Z -> result (list Z)) (width height x y : Z) :
  (forall x y, 0 <= x < width -> 0 <= y < height -> pixel_ok pixels x y) ->
  0 <= x < width -> 0 <= y < height ->
  exists raw,
    raw_scanlines pixels width height = Ok raw /\
    nth_error raw (Z.to_nat (y * (1 + width * 4))) = Some x00 /\
    firstn 4 (skipn (Z.to_nat (y * (1 + width * 4) + 1 + x * 4)) raw) =
      Spec.pixel_bytes pixels x y.
Proof.
  intros Hok Hx Hy. exists (Spec.raw_buffer pixels width height).
  split; [apply raw_scanlines_ok, Hok|].
  destruct (range_split y height Hy) as [tly Ey].
  destruct (range_split x width Hx) as [tlx Ex].
  unfold Spec.raw_buffer. rewrite Ey, map_app, concat_app. cbn [map concat].
  set (A := concat (map (Spec.scanline pixels width) (range y))).
  assert (HA : Z.of_nat (length A) = y * (1 + width * 4)).
  { subst A.
    rewrite (concat_length_const (B:=byte) (Spec.scanline pixels width)
               (Z.to_nat (1 + width * 4))).
    - rewrite Nat2Z.inj_mul, range_length, Z2Nat.id by lia. reflexivity.
    - intros y' Hy'. apply in_range in Hy'.
      rewrite <- (scanline_length pixels width y') by (try lia; intros; apply Hok; lia).
      now rewrite Nat2Z.id. }
  replace (Z.to_nat (y * (1 + width * 4))) with (length A) by lia.
  split.
  - rewrite nth_error_app_exact. reflexivity.
  - unfold Spec.scanline at 1. rewrite Ex, map_app, concat_app. cbn [map concat].
    set (A' := concat (map (fun x0 => Spec.pixel_bytes pixels x0 y) (range x))).
    assert (HA' : Z.of_nat (length A') = x * 4).
    { subst A'.
      rewrite (concat_length_const (B:=byte)
                 (fun x0 => Spec.pixel_bytes pixels x0 y) 4).
      - rewrite Nat2Z.inj_mul, range_length by lia. reflexivity.
      - intros x' Hx'. apply in_range in Hx'.
        destruct (pixel_bytes_ok pixels x' y) as [_ [_ [_ H]]];
          [apply Hok; lia|exact H]. }
    replace (Z.to_nat (y * (1 + width * 4) + 1 + x * 4))
      with (length A + S (length A' + 0))%nat by lia.
    rewrite skipn_app_plus. cbn [skipn app].
    rewrite <- !app_assoc, skipn_app_plus. cbn [skipn].
    destruct (pixel_bytes_ok pixels x y (Hok x y Hx Hy)) as [_ [_ [_ Hlen]]].
    rewrite <- Hlen. apply firstn_app_exact.
Qed.

Lemma raw_buffer_pixel_at_witness :
  exists raw,
    raw_scanlines (constant_pixel [1; 2; 3; 4]) 4 4 = Ok raw /\
    nth_error raw (Z.to_nat (2 * (1 + 4 * 4))) = Some x00 /\
    firstn 4 (skipn (Z.to_nat (2 * (1 + 4 * 4) + 1 + 3 * 4)) raw) =
      Spec.pixel_bytes (constant_pixel [1; 2; 3; 4]) 3 2.
Proof.
  apply (raw_buffer_pixel_at (constant_pixel [1; 2; 3; 4]) 4 4 3 2).
  - intros x y _ _. apply constant_pixel_ok.
  - lia.
  - lia.
Defined.

(** * The script *)

Lemma icon_pixel_ok (atan2 : float -> float -> float) (x y : Z) :
  dist2 x y < overflow_threshold -> pixel_ok (icon atan2) x y.
Proof.
  intros Hn. pose proof (dist2_nonneg x y) as H0. unfold pixel_ok.
  rewrite (icon_of_radius atan2 x y _ (math_sqrt_ok _ (conj H0 Hn))).
  destruct (icon_body_color atan2 _ _ (SFsqrt prec emax (of_Z (dist2 x y))) _
              (math_atan2_ok atan2 x y Hn)) as [c [b [Hc [Hlen [Hall _]]]]].
  exists c. split; [exact Hc|]. split; [exact Hlen|].
  apply Forall_impl with (2 := Hall). intros v Hv. lia.
Qed.

(** X9.  The pixel function raises exactly when the squared distance from the
    centre does not fit a double, and the exception is then
    [OverflowError]; it never raises [ValueError]. *)
Theorem icon_raises_iff (atan2 : float -> float -> float) (x y : Z) (e : exn) :
  icon atan2 x y = Raise e <->
  e = OverflowError /\ overflow_threshold <= dist2 x y.
Proof.
  split.
  - intros H.
    destruct (Z.lt_ge_cases (dist2 x y) overflow_threshold) as [Hlt|Hge].
    + destruct (icon_pixel_ok atan2 x y Hlt) as [t [Ht _]].
      rewrite Ht in H. discriminate.
    + rewrite (icon_overflow atan2 x y Hge) in H. injection H as <-. auto.
  - intros [-> Hge]. exact (icon_overflow atan2 x y Hge).
Qed.

Lemma stored_blocks_length (fuel : nat) :
  forall data,
    (length (Zlib.stored_blocks fuel data) <= length data + 5 * fuel)%nat.
Proof.
  induction fuel as [|fuel IH]; intros data; [simpl; lia|].
  cbn [Zlib.stored_blocks].
  destruct (Z.of_nat (length data) <=? 65535).
  - rewrite !length_app. cbn [length Zlib.le16]. lia.
  - rewrite !length_app. cbn [length Zlib.le16].
    pose proof (IH (skipn Zlib.block_max data)) as H.
    rewrite length_skipn in H. rewrite length_firstn. lia.
Qed.

Lemma compress_length (data : bytes) :
  (length (Zlib.compress data) <= 6 * length data + 11)%nat.
Proof.
  unfold Zlib.compress. rewrite !length_app, be32_length. cbn [length].
  pose proof (stored_blocks_length (S (length data)) data). lia.
Qed.

(** X20.  The script ends without an exception, whatever the file held
    before: app-icon.png then holds the signature, the IHDR chunk of a
    1024 x 1024 image of 8-bit RGBA, the IDAT chunk of the compressed
    4195328-byte scanline buffer of [icon], and the IEND chunk, and one line
    is printed. *)
Theorem main_writes_icon
  (atan2 : float -> float -> float) (crc32 : bytes -> Z)
  (compress : bytes -> bytes) (w : world) :
  Z.of_nat (length (compress (Spec.raw_buffer (icon atan2) 1024 1024))) < 2 ^ 32 ->
  main atan2 crc32 compress w =
    ({| app_icon_png :=
          Some (png_signature
                ++ Spec.chunk_bytes crc32 IHDR
                     [x00; x00; x04; x00; x00; x00; x04; x00;
                      x08; x06; x00; x00; x00]
                ++ Spec.chunk_bytes crc32 IDAT
                     (compress (Spec.raw_buffer (icon atan2) 1024 1024))
                ++ Spec.chunk_bytes crc32 IEND []);
        stdout := stdout w ++ ["Created app-icon.png"%string] |}, Ok tt) /\
  Z.of_nat (length (Spec.raw_buffer (icon atan2) 1024 1024)) = 4195328.
Proof.
  intros Hz.
  assert (Hok : forall x y, 0 <= x < 1024 -> 0 <= y < 1024 ->
                  pixel_ok (icon atan2) x y).
  { intros x y Hx Hy. apply icon_pixel_ok, canvas_dist2_fits; assumption. }
  split.
  - unfold main.
    destruct (create_png_shape crc32 compress (icon atan2) 1024 1024
                (Spec.raw_buffer (icon atan2) 1024 1024)) as [Hpng _].
    + lia.
    + lia.
    + apply raw_scanlines_ok, Hok.
    + exact Hz.
    + assert (Hh : Spec.header_payload 1024 1024 =
                   [x00; x00; x04; x00; x00; x00; x04; x00;
                    x08; x06; x00; x00; x00]) by (vm_compute; reflexivity).
      rewrite Hh in Hpng. rewrite Hpng. reflexivity.
  - rewrite raw_buffer_length by (try lia; exact Hok). reflexivity.
Qed.

Lemma main_writes_icon_witness :
  main (atan2_const S754_nan) Zlib.crc32 Zlib.compress
       {| app_icon_png := None; stdout := [] |} =
    ({| app_icon_png :=
          Some (png_signature
                ++ Spec.chunk_bytes Zlib.crc32 IHDR
                     [x00; x00; x04; x00; x00; x00; x04; x00;
                      x08; x06; x00; x00; x00]
                ++ Spec.chunk_bytes Zlib.crc32 IDAT
                     (Zlib.compress
                        (Spec.raw_buffer (icon (atan2_const S754_nan)) 1024 1024))
                ++ Spec.chunk_bytes Zlib.crc32 IEND []);
        stdout := [] ++ ["Created app-icon.png"%string] |}, Ok tt) /\
  Z.of_nat (length (Spec.raw_buffer (icon (atan2_const S754_nan)) 1024 1024)) =
    4195328.
Proof.
  apply (main_writes_icon (atan2_const S754_nan) Zlib.crc32 Zlib.compress
           {| app_icon_png := None; stdout := [] |}).
  pose proof (compress_length
                (Spec.raw_buffer (icon (atan2_const S754_nan)) 1024 1024)) as H.
  assert (Hlen : Z.of_nat (length (Spec.raw_buffer
                    (icon (atan2_const S754_nan)) 1024 1024)) = 4195328).
  { rewrite raw_buffer_length; [reflexivity|lia|lia|].
    intros x y Hx Hy. apply icon_pixel_ok, canvas_dist2_fits; assumption. }
  apply Z.le_lt_trans with (m := 6 * 4195328 + 11); [lia|reflexivity].
Defined.
